(** * puzzle-datamuse: frequency backfill job

    A shallow embedding of [DatamuseService.js] and [datamuseProcessor.js].

    - JavaScript values that travel through the program are JSON values
      ([Json]); [undefined] is [None] of [option Json].
    - The [dictionary] table is a list of rows whose columns are never NULL
      except [info], and nothing but this program's UPDATEs changes it.
    - An [async] function is a computation [Eff S A] over an explicit state:
      it either completes normally or throws, and threads the state through.
    - The outside world (the Datamuse HTTP service, the PostgreSQL pool, the
      wall clock) is an [Env] of oracles indexed by a tick counter that every
      external call advances, so that transient failures can be described.
    - Console output is not modelled. *)

From Stdlib Require Import List String ZArith Arith Bool Lia.
From Stdlib Require Import Sorted Permutation.
Import ListNotations.
Local Open Scope string_scope.
Set Warnings "-register-all".

(* ===================================================================== *)
(** ** JavaScript values *)
(* ===================================================================== *)

(** Numbers are integers here: the service's scores are integral, and the
    program only tests numbers for being zero or positive. *)
Inductive Json : Type :=
| JNull
| JBool (b : bool)
| JNum (n : Z)
| JStr (s : string)
| JArr (items : list Json)
| JObj (fields : list (string * Json)).

(** [None] is JavaScript's [undefined]. *)
Definition JsVal : Type := option Json.

Record JsError : Type := mkError { message : string }.

Inductive Completion (A : Type) : Type :=
| Normal (a : A)
| Throw (e : JsError).
Arguments Normal {A} a.
Arguments Throw {A} e.

Definition TypeError (msg : string) : JsError := mkError msg.

Module Js.

(** ToBoolean. *)
Definition truthy (v : Json) : bool :=
  match v with
  | JNull => false
  | JBool b => b
  | JNum n => negb (n =? 0)%Z
  | JStr s => negb (s =? "")
  | JArr _ | JObj _ => true
  end.

(** Own data property of an object built by JSON parsing. *)
Fixpoint assoc (k : string) (fields : list (string * Json)) : JsVal :=
  match fields with
  | [] => None
  | (k', v) :: rest => if k' =? k then Some v else assoc k rest
  end.

(** [v.name] for a property name that no prototype defines ([tags],
    [score]): only parsed objects can carry it; reading it from [null] or
    [undefined] throws. *)
Definition field (v : JsVal) (name : string) : Completion JsVal :=
  match v with
  | None => Throw (TypeError ("Cannot read properties of undefined (reading '" ++ name ++ "')"))
  | Some JNull => Throw (TypeError ("Cannot read properties of null (reading '" ++ name ++ "')"))
  | Some (JObj fields) => Normal (assoc name fields)
  | Some _ => Normal None
  end.

(** [v.length]. *)
Definition length_of (v : Json) : Completion JsVal :=
  match v with
  | JNull => Throw (TypeError "Cannot read properties of null (reading 'length')")
  | JBool _ | JNum _ => Normal None
  | JStr s => Normal (Some (JNum (Z.of_nat (String.length s))))
  | JArr items => Normal (Some (JNum (Z.of_nat (List.length items))))
  | JObj fields => Normal (assoc "length" fields)
  end.

(** [v[0]]. *)
Definition index0 (v : Json) : Completion JsVal :=
  match v with
  | JNull => Throw (TypeError "Cannot read properties of null (reading '0')")
  | JBool _ | JNum _ => Normal None
  | JStr EmptyString => Normal None
  | JStr (String c _) => Normal (Some (JStr (String c EmptyString)))
  | JArr items => Normal (nth_error items 0)
  | JObj fields => Normal (assoc "0" fields)
  end.

(** [tag.startsWith('f:')], the callback handed to [find]. *)
Definition startsWith_f (tag : Json) : Completion bool :=
  match tag with
  | JStr s => Normal (String.prefix "f:" s)
  | JNull => Throw (TypeError "Cannot read properties of null (reading 'startsWith')")
  | _ => Throw (TypeError "tag.startsWith is not a function")
  end.

(** [Array.prototype.find] with that callback: the first element the
    callback accepts, [undefined] when there is none. *)
Fixpoint find_f (items : list Json) : Completion JsVal :=
  match items with
  | [] => Normal None
  | tag :: rest =>
      match startsWith_f tag with
      | Throw e => Throw e
      | Normal true => Normal (Some tag)
      | Normal false => find_f rest
      end
  end.

(** [tags.find(tag => tag.startsWith('f:'))]: only arrays have [find]. *)
Definition find_frequency_tag (tags : Json) : Completion JsVal :=
  match tags with
  | JArr items => find_f items
  | JNull => Throw (TypeError "Cannot read properties of null (reading 'find')")
  | _ => Throw (TypeError "wordData.tags.find is not a function")
  end.

(** [s.substring(2)]. *)
Definition substring2 (v : Json) : Completion Json :=
  match v with
  | JStr s => Normal (JStr (String.substring 2 (String.length s - 2) s))
  | JNull => Throw (TypeError "Cannot read properties of null (reading 'substring')")
  | _ => Throw (TypeError "frequency.substring is not a function")
  end.

(** [v || null]. *)
Definition or_null (v : JsVal) : Json :=
  match v with
  | Some j => if truthy j then j else JNull
  | None => JNull
  end.

End Js.

(* ===================================================================== *)
(** ** The store and the outside world *)
(* ===================================================================== *)

(** A row of the [dictionary] table. The [info] column holds the JSON text
    produced by [JSON.stringify], represented by the value it denotes;
    [None] is SQL [NULL]. *)
Record DictRow : Type := mkRow {
  word : string;
  language : string;
  source : string;
  info : option Json;
  created_at : Z
}.

Record World : Type := mkWorld {
  dictionary : list DictRow;
  tick : nat;        (* external calls made so far *)
  slept : Z          (* milliseconds spent in setTimeout *)
}.

Record Env : Type := mkEnv {
  (** [axios.get(.../words, {sp: word, md: 'f', max: 1})] issued at a tick:
      [response.data], or the rejection. *)
  axios_get : nat -> string -> Completion Json;
  (** [pool.query] issued at a tick rejects with this error, if any. *)
  pool_fault : nat -> option JsError;
  (** [new Date().toISOString()] at a tick. *)
  clock : nat -> string;
  (** [v > 0] for a [v] that is not a number, through the engine's ToNumber
      coercion (reachable only when the response is an object that carries
      its own [length] key). *)
  coerced_gt0 : Json -> Completion bool
}.

(* ===================================================================== *)
(** ** Computations *)
(* ===================================================================== *)

Definition Eff (S A : Type) : Type := S -> Completion A * S.

Definition ret {S A} (a : A) : Eff S A := fun s => (Normal a, s).

Definition throw {S A} (e : JsError) : Eff S A := fun s => (Throw e, s).

Definition bind {S A B} (c : Eff S A) (k : A -> Eff S B) : Eff S B :=
  fun s =>
    match c s with
    | (Normal a, s') => k a s'
    | (Throw e, s') => (Throw e, s')
    end.

(** [try { body } catch (error) { handler }]. *)
Definition try_catch {S A} (body : Eff S A) (handler : JsError -> Eff S A) : Eff S A :=
  fun s =>
    match body s with
    | (Normal a, s') => (Normal a, s')
    | (Throw e, s') => handler e s'
    end.

(** A synchronous expression that may throw. *)
Definition eval {S A} (c : Completion A) : Eff S A := fun s => (c, s).

Definition modify {S} (f : S -> S) : Eff S unit := fun s => (Normal tt, f s).

Definition gets {S A} (f : S -> A) : Eff S A := fun s => (Normal (f s), s).

Declare Scope eff_scope.
Delimit Scope eff_scope with eff.
Notation "x <- c ;; k" := (bind c (fun x => k))
  (at level 61, c at next level, right associativity) : eff_scope.
Notation "c ;;; k" := (bind c (fun _ => k))
  (at level 61, right associativity) : eff_scope.
Local Open Scope eff_scope.

Definition advance (w : World) : World :=
  mkWorld (dictionary w) (S (tick w)) (slept w).

(** [await new Promise(resolve => setTimeout(resolve, ms))]. *)
Definition sleep (ms : Z) : Eff World unit :=
  modify (fun w => mkWorld (dictionary w) (tick w) (slept w + ms)%Z).

(* ===================================================================== *)
(** ** DatamuseService.js *)
(* ===================================================================== *)

Definition not_found_message : string := "Word not found in Datamuse database".

Section DatamuseService.

Variable env : Env.

Definition http_get_words (word : string) : Eff World Json :=
  fun w => (axios_get env (tick w) word, advance w).

Definition toISOString_now : Eff World string :=
  gets (fun w => clock env (tick w)).

(** [v > 0]. *)
Definition gt0 (v : JsVal) : Completion bool :=
  match v with
  | None => Normal false
  | Some (JNum n) => Normal (0 <? n)%Z
  | Some JNull => Normal false
  | Some (JBool b) => Normal b
  | Some j => coerced_gt0 env j
  end.

(** [data && data.length > 0], as a condition. *)
Definition has_entries (data : Json) : Completion bool :=
  if Js.truthy data then
    match Js.length_of data with
    | Normal len => gt0 len
    | Throw e => Throw e
    end
  else Normal false.

(** The [try] block of [fetchWordFrequency]. *)
Definition fetchWordFrequency_try (word : string) : Eff World Json :=
  data <- http_get_words word ;;
  nonempty <- eval (has_entries data) ;;
  if nonempty then
    wordData <- eval (Js.index0 data) ;;
    tags <- eval (Js.field wordData "tags") ;;
    frequency <- (match tags with
                  | Some t => if Js.truthy t then eval (Js.find_frequency_tag t)
                              else ret (Some JNull)
                  | None => ret (Some JNull)
                  end) ;;
    frequency' <- (match frequency with
                   | Some f => if Js.truthy f then eval (Js.substring2 f)
                               else ret JNull
                   | None => ret JNull
                   end) ;;
    score <- eval (Js.field wordData "score") ;;
    now <- toISOString_now ;;
    ret (JObj [("frequency", frequency');
               ("score", Js.or_null score);
               ("fetched_at", JStr now)])
  else
    now <- toISOString_now ;;
    ret (JObj [("frequency", JNull);
               ("score", JNull);
               ("fetched_at", JStr now);
               ("error", JStr not_found_message)]).

Definition fetchWordFrequency (word : string) : Eff World Json :=
  try_catch
    (fetchWordFrequency_try word)
    (fun error =>
       now <- toISOString_now ;;
       ret (JObj [("frequency", JNull);
                  ("score", JNull);
                  ("fetched_at", JStr now);
                  ("error", JStr (message error))])).

End DatamuseService.

(* ===================================================================== *)
(** ** datamuseProcessor.js *)
(* ===================================================================== *)

(** Local variables of a function body, next to the world. *)
Definition in_world {L A} (c : Eff World A) : Eff (L * World) A :=
  fun s => (fst (c (snd s)), (fst s, snd (c (snd s)))).

Definition on_locals {L} (f : L -> L) : Eff (L * World) unit :=
  modify (fun s => (f (fst s), snd s)).

Definition read_locals {L A} (f : L -> A) : Eff (L * World) A :=
  gets (fun s => f (fst s)).

(** Runs [body] with fresh locals and hands back their final values. *)
Definition run_locals {L} (init : L) (body : Eff (L * World) unit) : Eff World L :=
  fun w =>
    match fst (body (init, w)) with
    | Normal _ => (Normal (fst (snd (body (init, w)))), snd (snd (body (init, w))))
    | Throw e => (Throw e, snd (snd (body (init, w))))
    end.

(** [for (const x of xs) { body }]. *)
Fixpoint for_of {S A} (xs : list A) (body : A -> Eff S unit) : Eff S unit :=
  match xs with
  | [] => ret tt
  | x :: rest => body x ;;; for_of rest body
  end.

Inductive LoopControl : Type := Continue | Break.

(** [while (true) { body }], cut off after [fuel] iterations: [None] means
    the loop is still running when the fuel is spent. *)
Fixpoint while_true {S} (fuel : nat) (body : Eff S LoopControl) (s : S)
  : option (Completion unit * S) :=
  match fuel with
  | O => None
  | S fuel' =>
      match body s with
      | (Normal Break, s') => Some (Normal tt, s')
      | (Normal Continue, s') => while_true fuel' body s'
      | (Throw e, s') => Some (Throw e, s')
      end
  end.

(** The three counters of [processWords], also the shape of its result. *)
Record Counts : Type := mkCounts {
  processedCount : nat;
  successCount : nat;
  errorCount : nat
}.

(** The running totals of [processAllWords]. *)
Record Totals : Type := mkTotals {
  totalProcessed : nat;
  totalSuccess : nat;
  totalErrors : nat;
  batchNumber : nat
}.

(** [WHERE d."language" = 'english' AND d.source = 'wiktionary'
     AND d.info IS NULL]. *)
Definition eligible (d : DictRow) : bool :=
  (language d =? "english") && (source d =? "wiktionary")
  && match info d with None => true | Some _ => false end.

(** [ORDER BY d.created_at ASC]. SQL leaves the order among rows with equal
    timestamps open; here they keep their table order. *)
Fixpoint insert_by_created_at (r : DictRow) (sorted : list DictRow) : list DictRow :=
  match sorted with
  | [] => [r]
  | x :: rest =>
      if (created_at r <=? created_at x)%Z then r :: x :: rest
      else x :: insert_by_created_at r rest
  end.

Fixpoint order_by_created_at (rows : list DictRow) : list DictRow :=
  match rows with
  | [] => []
  | r :: rest => insert_by_created_at r (order_by_created_at rest)
  end.

(** The rows the SELECT of [queryWordsNeedingInfo] picks, with [LIMIT $1]. *)
Definition select_pending (limit : nat) (table : list DictRow) : list DictRow :=
  firstn limit (order_by_created_at (filter eligible table)).

(** [WHERE word = $2 AND "language" = 'english' AND source = 'wiktionary']. *)
Definition update_target (w : string) (d : DictRow) : bool :=
  (word d =? w) && (language d =? "english") && (source d =? "wiktionary").

(** [UPDATE dictionary SET info = $1 WHERE ...]. *)
Definition set_info (i : Json) (w : string) (table : list DictRow) : list DictRow :=
  map (fun d => if update_target w d
                then mkRow (word d) (language d) (source d) (Some i) (created_at d)
                else d) table.

Definition rowCount (w : string) (table : list DictRow) : nat :=
  List.length (filter (update_target w) table).

Section Processor.

Variable env : Env.

(** [pool.query(...)]: one statement against the table, unless the pool
    rejects. *)
Definition pool_query {A} (statement : list DictRow -> A * list DictRow)
  : Eff World A :=
  fun w =>
    match pool_fault env (tick w) with
    | Some e => (Throw e, advance w)
    | None =>
        (Normal (fst (statement (dictionary w))),
         mkWorld (snd (statement (dictionary w))) (S (tick w)) (slept w))
    end.

(** A result row [{word}] is represented by its only column. *)
Definition queryWordsNeedingInfo (limit : nat) : Eff World (list string) :=
  try_catch
    (rows <- pool_query (fun table => (map word (select_pending limit table), table)) ;;
     ret rows)
    (fun error => throw error).

Definition updateWordInfo (w : string) (i : Json) : Eff World bool :=
  try_catch
    (count <- pool_query (fun table => (rowCount w table, set_info i w table)) ;;
     ret (0 <? count)%nat)
    (fun error => throw error).

Definition incr_processed (c : Counts) : Counts :=
  mkCounts (S (processedCount c)) (successCount c) (errorCount c).
Definition incr_success (c : Counts) : Counts :=
  mkCounts (processedCount c) (S (successCount c)) (errorCount c).
Definition incr_error (c : Counts) : Counts :=
  mkCounts (processedCount c) (successCount c) (S (errorCount c)).

(** The body of the [for] loop of [processWords]. *)
Definition process_word (n_words : nat) (delayMs : Z) (wordRow : string)
  : Eff (Counts * World) unit :=
  let w := wordRow in
  try_catch
    (frequencyInfo <- in_world (fetchWordFrequency env w) ;;
     updateSuccess <- in_world (updateWordInfo w frequencyInfo) ;;
     (if updateSuccess : bool then on_locals incr_success
      else on_locals incr_error) ;;;
     on_locals incr_processed ;;;
     processed <- read_locals processedCount ;;
     if (processed <? n_words)%nat then in_world (sleep delayMs) else ret tt)
    (fun error => on_locals incr_error).

(** The result is [None] where the function returns [undefined]. *)
Definition processWords (batchSize : nat) (delayMs : Z)
  : Eff World (option Counts) :=
  try_catch
    (words <- queryWordsNeedingInfo batchSize ;;
     if (List.length words =? 0)%nat then ret None
     else
       counts <- run_locals (mkCounts 0 0 0)
                            (for_of words (process_word (List.length words) delayMs)) ;;
       ret (Some counts))
    (fun error => throw error).

Definition add_batch (r : Counts) (t : Totals) : Totals :=
  mkTotals (totalProcessed t + processedCount r)
           (totalSuccess t + successCount r)
           (totalErrors t + errorCount r)
           (batchNumber t).
Definition next_batch (t : Totals) : Totals :=
  mkTotals (totalProcessed t) (totalSuccess t) (totalErrors t) (S (batchNumber t)).
Definition incr_totalErrors (t : Totals) : Totals :=
  mkTotals (totalProcessed t) (totalSuccess t) (S (totalErrors t)) (batchNumber t).

(** One turn of the [while (true)] of [processAllWords]. *)
Definition batch_turn (batchSize : nat) (delayMs batchDelayMs : Z)
  : Eff (Totals * World) LoopControl :=
  try_catch
    (result <- in_world (processWords batchSize delayMs) ;;
     match result with
     | None =>
         throw (TypeError "Cannot read properties of undefined (reading 'processedCount')")
     | Some r =>
         if (processedCount r =? 0)%nat then ret Break
         else
           on_locals (add_batch r) ;;;
           on_locals next_batch ;;;
           if (processedCount r <? batchSize)%nat then ret Break
           else in_world (sleep batchDelayMs) ;;; ret Continue
     end)
    (fun error =>
       on_locals incr_totalErrors ;;;
       in_world (sleep batchDelayMs) ;;;
       ret Continue).

(** [processAllWords], returning the totals of its final summary. *)
Definition processAllWords (fuel : nat) (batchSize : nat) (delayMs batchDelayMs : Z)
           (w : World) : option (Completion Totals * World) :=
  match while_true fuel (batch_turn batchSize delayMs batchDelayMs)
                   (mkTotals 0 0 0 1, w) with
  | None => None
  | Some (Normal _, s) => Some (Normal (fst s), snd s)
  | Some (Throw e, s) => Some (Throw e, snd s)
  end.

End Processor.

(* ===================================================================== *)
(** ** Sample worlds *)
(* ===================================================================== *)

Definition pending (w : string) (t : Z) : DictRow :=
  mkRow w "english" "wiktionary" None t.

(** A service that knows every word, with frequency tag and score. *)
Definition calm_env : Env :=
  mkEnv (fun _ w => Normal (JArr [JObj [("word", JStr w); ("score", JNum 1000);
                                        ("tags", JArr [JStr "f:12.5"])]]))
        (fun _ => None)
        (fun _ => "2024-01-01T00:00:00.000Z")
        (fun _ => Normal false).

Definition world_of (table : list DictRow) : World := mkWorld table 0 0.

(** Three pending rows among rows in another language or already filled. *)
Definition mixed_world : World :=
  world_of [pending "a" 20; mkRow "x" "french" "wiktionary" None 1;
            pending "b" 10; mkRow "y" "english" "wiktionary" (Some JNull) 2;
            pending "c" 30].

Definition five_pending : World :=
  world_of [pending "a" 5; pending "b" 4; pending "c" 3; pending "d" 2; pending "e" 1].

(** As [calm_env], but the pool rejects the statement issued at tick 6: the
    UPDATE for the third word of a batch that starts at tick 0 (tick 0 is the
    SELECT, then each word takes an HTTP call and an UPDATE). *)
Definition third_update_fails : Env :=
  mkEnv (axios_get calm_env)
        (fun t => if (t =? 6)%nat then Some (mkError "Connection terminated unexpectedly") else None)
        (clock calm_env)
        (coerced_gt0 calm_env).

(** A service whose only entry for a word has neither tags nor score. *)
Definition bare_env : Env :=
  mkEnv (fun _ w => Normal (JArr [JObj [("word", JStr w)]]))
        (fun _ => None)
        (fun _ => "2024-01-01T00:00:00.000Z")
        (fun _ => Normal false).

(** A service that knows no word. *)
Definition empty_env : Env :=
  mkEnv (fun _ _ => Normal (JArr []))
        (fun _ => None)
        (fun _ => "2024-01-01T00:00:00.000Z")
        (fun _ => Normal false).

(** A service that cannot be reached. *)
Definition offline_env : Env :=
  mkEnv (fun _ _ => Throw (mkError "timeout of 10000ms exceeded"))
        (fun _ => None)
        (fun _ => "2024-01-01T00:00:00.000Z")
        (fun _ => Normal false).

(* ===================================================================== *)
(** ** Reading a result object *)
(* ===================================================================== *)

(** [r.name] on a result of [fetchWordFrequency]. *)
Definition prop (r : Json) (name : string) : JsVal :=
  match r with
  | JObj fields => Js.assoc name fields
  | _ => None
  end.

Definition is_null (v : JsVal) : bool :=
  match v with
  | Some JNull => true
  | _ => false
  end.

(** A frequency or a score is there. *)
Definition payload_populated (r : Json) : bool :=
  negb (is_null (prop r "frequency")) || negb (is_null (prop r "score")).

(** An error message is there. *)
Definition error_populated (r : Json) : bool :=
  match prop r "error" with
  | Some (JStr _) => true
  | _ => false
  end.

Definition fetched_at_set (r : Json) : bool :=
  match prop r "fetched_at" with
  | Some (JStr _) => true
  | _ => false
  end.

(** The two objects the failure paths build. *)
Definition failure_info (msg now : string) : Json :=
  JObj [("frequency", JNull); ("score", JNull);
        ("fetched_at", JStr now); ("error", JStr msg)].

Definition found_info (frequency score : Json) (now : string) : Json :=
  JObj [("frequency", frequency); ("score", score); ("fetched_at", JStr now)].

(** The reading of C8 as it is worded: exactly one of payload and error. *)
Definition exactly_one_populated (r : Json) : bool :=
  xorb (payload_populated r) (error_populated r).

Definition older_or_same (a b : DictRow) : Prop := (created_at a <= created_at b)%Z.

(** Oldest first: every row is at most as recent as all rows after it. *)
Definition oldest_first (rows : list DictRow) : Prop :=
  StronglySorted older_or_same rows.

(* ===================================================================== *)
(** ** The remaining functions of the two files *)
(* ===================================================================== *)

(** How the process started by [main] ends. [process.exit] stops the process
    on the spot, so nothing after it runs, the [finally] block included. *)
Inductive ProcessEnd : Type :=
| Exit (code : nat)
| Returned (pool_ended : bool).

Section OtherFunctions.

Variable env : Env.

(** [DatamuseService.testConnection]: its [try] block only logs. *)
Definition service_testConnection : Eff World bool :=
  try_catch (ret true) (fun error => ret false).

(** [DatamuseService.fetchMultipleWordFrequencies]: the loop variable [i]
    runs over the indices of [words]; [results] is the local array. *)
Definition fetchMultipleWordFrequencies (words : list string) (delayMs : Z)
  : Eff World (list Json) :=
  results <- run_locals (@nil Json)
               (for_of (combine (seq 0 (List.length words)) words)
                  (fun iw =>
                     let i := fst iw in
                     let w := snd iw in
                     frequencyInfo <- in_world (fetchWordFrequency env w) ;;
                     on_locals (fun results => (results ++ [frequencyInfo])%list) ;;;
                     if (Z.of_nat i <? Z.of_nat (List.length words) - 1)%Z
                     then in_world (sleep delayMs)
                     else ret tt)) ;;
  ret results.

(** [testConnection] of the processor: [SELECT NOW()]. *)
Definition testConnection : Eff World bool :=
  try_catch
    (result <- pool_query env (fun table => (tt, table)) ;;
     ret true)
    (fun error => ret false).

Definition testDatamuseAPI : Eff World bool := service_testConnection.

(** [main]. The pool is ended in the [finally] block, which is reached only
    when the process has not exited before. *)
Definition main (fuel : nat) (wd : World) : option (ProcessEnd * World) :=
  match (dbConnected <- testConnection ;;
         apiConnected <- testDatamuseAPI ;;
         ret (dbConnected, apiConnected)) wd with
  | (Throw _, wd1) => Some (Exit 1, wd1)
  | (Normal (dbConnected, apiConnected), wd1) =>
      if negb dbConnected || negb apiConnected then Some (Exit 1, wd1)
      else
        match processAllWords env fuel 1000 200 5000 wd1 with
        | None => None
        | Some (Normal _, wd2) => Some (Returned true, wd2)
        | Some (Throw _, wd2) => Some (Exit 1, wd2)
        end
  end.

End OtherFunctions.

(** The rows a SELECT would still find. *)
Definition pending_rows (table : list DictRow) : list DictRow :=
  filter eligible table.

(** What an UPDATE never changes in a row. *)
Definition row_key (d : DictRow) : string * string * string * Z :=
  (word d, language d, source d, created_at d).

(** The pool accepts every statement. *)
Definition reliable_pool (env : Env) : Prop :=
  forall t, pool_fault env t = None.

(** The record that the lookup issued at a tick returns for a word. *)
Definition lookup_at (env : Env) (t : nat) (w : string) : Completion Json :=
  fst (fetchWordFrequency env w (mkWorld [] t 0)).

(** [mem w ws]: [w] is one of [ws]. *)
Definition mem (w : string) (ws : list string) : bool :=
  existsb (String.eqb w) ws.

(** The record used where an info is written by hand. *)
Definition sample_info : Json :=
  found_info (JStr "12.5") (JNum 1000) "2024-01-01T00:00:00.000Z".

(** A pool that rejects every statement. *)
Definition pool_down_env : Env :=
  mkEnv (axios_get calm_env)
        (fun _ => Some (mkError "connect ECONNREFUSED 127.0.0.1:5433"))
        (clock calm_env)
        (coerced_gt0 calm_env).

(** A pool that accepts the statement issued at tick 0 and rejects all
    later ones. *)
Definition updates_rejected_env : Env :=
  mkEnv (axios_get calm_env)
        (fun t => if (t =? 0)%nat then None
                  else Some (mkError "Connection terminated unexpectedly"))
        (clock calm_env)
        (coerced_gt0 calm_env).

(** A pool that rejects the statement issued at tick 0 only. *)
Definition first_select_fails : Env :=
  mkEnv (axios_get calm_env)
        (fun t => if (t =? 0)%nat then Some (mkError "Connection terminated unexpectedly")
                  else None)
        (clock calm_env)
        (coerced_gt0 calm_env).

(** A service whose entry carries several tags. *)
Definition tagged_env : Env :=
  mkEnv (fun _ w => Normal (JArr [JObj [("word", JStr w); ("score", JNum 42);
                                        ("tags", JArr [JStr "n"; JStr "f:0.5"; JStr "f:7"])]]))
        (fun _ => None)
        (fun _ => "2024-01-01T00:00:00.000Z")
        (fun _ => Normal false).

(** A service that answers with a page of text. *)
Definition text_env : Env :=
  mkEnv (fun _ _ => Normal (JStr "<html>Service Unavailable</html>"))
        (fun _ => None)
        (fun _ => "2024-01-01T00:00:00.000Z")
        (fun _ => Normal false).

(* ===================================================================== *)
(** ** Lookup: [fetchWordFrequency] *)
(* ===================================================================== *)

Ltac unfold_eff :=
  unfold in_world, on_locals, read_locals, sleep in *;
  unfold try_catch, bind, ret, throw, eval, gets, modify in *;
  cbn [fst snd] in *.

Ltac case_scrutinee :=
  match goal with
  | |- context [match ?x with _ => _ end] =>
      lazymatch x with
      | context [match _ with _ => _ end] => fail
      | _ => destruct x eqn:?
      end
  end.

Ltac same_totals :=
  match goal with
  | |- Some (_, (?a, _)) = Some (_, (?b, _)) =>
      replace a with b by (f_equal; lia); reflexivity
  end.

Ltac nodup_strings :=
  repeat (constructor; [cbn; intuition discriminate |]); constructor.

Section LookupFacts.

Variable env : Env.

(** The [try] block either builds one of its two objects or throws; the
    only effect on the world is the HTTP call. *)
Lemma fetchWordFrequency_try_cases word w :
  snd (fetchWordFrequency_try env word w) = advance w /\
  ((exists f s, fst (fetchWordFrequency_try env word w)
                = Normal (found_info f s (clock env (S (tick w))))) \/
   fst (fetchWordFrequency_try env word w)
     = Normal (failure_info not_found_message (clock env (S (tick w)))) \/
   (exists e, fst (fetchWordFrequency_try env word w) = Throw e)).
Proof.
  unfold fetchWordFrequency_try, http_get_words, toISOString_now.
  unfold_eff.
  repeat (case_scrutinee; cbn [fst snd]);
    (split; [reflexivity |]);
    first [ left; do 2 eexists; reflexivity
          | right; left; reflexivity
          | right; right; eexists; reflexivity ].
Qed.

Lemma fetchWordFrequency_unfold word w :
  fetchWordFrequency env word w =
  match fst (fetchWordFrequency_try env word w) with
  | Normal r => (Normal r, advance w)
  | Throw e => (Normal (failure_info (message e) (clock env (S (tick w)))), advance w)
  end.
Proof.
  destruct (fetchWordFrequency_try_cases word w) as [Hw _].
  unfold fetchWordFrequency, toISOString_now. unfold_eff.
  destruct (fetchWordFrequency_try env word w) as [[r | e] w']; cbn [fst snd] in *;
    subst w'; reflexivity.
Qed.

(** The lookup always returns, having made one external call, and what it
    returns is a found record or a failure record. *)
Lemma fetchWordFrequency_returns word w :
  exists r,
    fetchWordFrequency env word w = (Normal r, advance w) /\
    ((exists f s, r = found_info f s (clock env (S (tick w)))) \/
     (exists msg, r = failure_info msg (clock env (S (tick w))))).
Proof.
  rewrite fetchWordFrequency_unfold.
  destruct (fetchWordFrequency_try_cases word w) as [_ [(f & s & H) | [H | (e & H)]]];
    rewrite H; eexists; (split; [reflexivity |]); eauto.
Qed.

Lemma has_entries_cons x others :
  has_entries env (JArr (x :: others)) = Normal true.
Proof.
  unfold has_entries; cbn [Js.truthy Js.length_of gt0 List.length].
  reflexivity.
Qed.

(** What the [try] block does with an answer whose first entry is an
    object that carries no [tags]. *)
Lemma fetchWordFrequency_untagged word w fields others :
  axios_get env (tick w) word = Normal (JArr (JObj fields :: others)) ->
  Js.assoc "tags" fields = None ->
  fetchWordFrequency env word w =
  (Normal (found_info JNull (Js.or_null (Js.assoc "score" fields))
                      (clock env (S (tick w)))),
   advance w).
Proof.
  intros Hget Htags.
  unfold fetchWordFrequency, fetchWordFrequency_try, http_get_words, toISOString_now.
  unfold_eff. rewrite Hget, has_entries_cons.
  cbn [Js.index0 nth_error Js.field]. rewrite Htags. reflexivity.
Qed.

(** An answer without entries gives the not-found record. *)
Lemma fetchWordFrequency_no_entry word w :
  axios_get env (tick w) word = Normal (JArr []) ->
  fetchWordFrequency env word w =
  (Normal (failure_info not_found_message (clock env (S (tick w)))), advance w).
Proof.
  intros Hget.
  unfold fetchWordFrequency, fetchWordFrequency_try, http_get_words, toISOString_now.
  unfold_eff. rewrite Hget. reflexivity.
Qed.

End LookupFacts.

(** C4. [fetchWordFrequency] never raises: for every word and every state of
    the world it returns a record; whatever its [try] block throws comes back
    as the record with [frequency = null], [score = null] and [error] set to
    the thrown message, and a rejected request in particular does. *)
Theorem fetchWordFrequency_never_raises (env : Env) (w : string) (wd : World) :
  exists r,
    fst (fetchWordFrequency env w wd) = Normal r /\
    match fst (fetchWordFrequency_try env w wd) with
    | Throw e => r = failure_info (message e) (clock env (S (tick wd)))
    | Normal r' => r = r'
    end /\
    match axios_get env (tick wd) w with
    | Throw e => r = failure_info (message e) (clock env (S (tick wd)))
    | Normal _ => True
    end.
Proof.
  rewrite fetchWordFrequency_unfold.
  assert (Hreq : forall e, axios_get env (tick wd) w = Throw e ->
                           fst (fetchWordFrequency_try env w wd) = Throw e).
  { intros e He. unfold fetchWordFrequency_try, http_get_words. unfold_eff.
    rewrite He. reflexivity. }
  destruct (fst (fetchWordFrequency_try env w wd)) as [r | e] eqn:Htry;
    eexists; cbn [fst]; (split; [reflexivity |]); (split; [reflexivity |]);
    destruct (axios_get env (tick wd) w) as [d | e'] eqn:Hget; trivial;
    specialize (Hreq e' eq_refl); congruence.
Qed.

(** C8 fails as worded: an entry that carries neither an [f:] tag nor a
    score gives a record with no frequency, no score and no error. *)
Lemma lookup_result_neither_populated :
  fst (fetchWordFrequency bare_env "zyzzyva" (world_of []))
  = Normal (found_info JNull JNull "2024-01-01T00:00:00.000Z") /\
  payload_populated (found_info JNull JNull "2024-01-01T00:00:00.000Z") = false /\
  error_populated (found_info JNull JNull "2024-01-01T00:00:00.000Z") = false /\
  exactly_one_populated (found_info JNull JNull "2024-01-01T00:00:00.000Z") = false.
Proof. repeat split. Qed.

(** C8, amended. Every record [fetchWordFrequency] returns has [fetched_at]
    set, and payload and error are never both populated: a record with an
    error has [frequency = null] and [score = null]. The only record with
    neither is the found record whose frequency and score are both null. *)
Theorem lookup_result_at_most_one_populated (env : Env) (w : string) (wd : World) :
  exists r,
    fst (fetchWordFrequency env w wd) = Normal r /\
    fetched_at_set r = true /\
    payload_populated r && error_populated r = false /\
    (exactly_one_populated r = true \/
     r = found_info JNull JNull (clock env (S (tick wd)))).
Proof.
  destruct (fetchWordFrequency_returns env w wd) as (r & Hr & [(f & s & ->) | (msg & ->)]);
    rewrite Hr; eexists; (split; [reflexivity |]); (split; [reflexivity |]).
  - split.
    + unfold payload_populated, error_populated, found_info, prop; cbn.
      apply andb_false_r.
    + destruct f; try (left; reflexivity);
        destruct s; try (left; reflexivity).
      right; reflexivity.
  - split; [reflexivity | left; reflexivity].
Qed.

(** C10. When the first entry of the answer has score 0, or no score, the
    returned record has [score = null]; if the entry has no tags either,
    the record is the found record with both fields null. *)
Theorem zero_score_reads_as_null (env : Env) (w : string) (wd : World)
        (fields : list (string * Json)) (others : list Json) :
  axios_get env (tick wd) w = Normal (JArr (JObj fields :: others)) ->
  Js.assoc "score" fields = Some (JNum 0) \/ Js.assoc "score" fields = None ->
  exists r,
    fst (fetchWordFrequency env w wd) = Normal r /\
    prop r "score" = Some JNull /\
    match Js.assoc "tags" fields with
    | None => r = found_info JNull JNull (clock env (S (tick wd)))
    | Some _ => True
    end.
Proof.
  intros Hget Hscore.
  assert (Hnull : Js.or_null (Js.assoc "score" fields) = JNull)
    by (destruct Hscore as [-> | ->]; reflexivity).
  destruct (Js.assoc "tags" fields) as [tags |] eqn:Htags.
  - rewrite fetchWordFrequency_unfold.
    unfold fetchWordFrequency_try, http_get_words, toISOString_now. unfold_eff.
    rewrite Hget, has_entries_cons. cbn [Js.index0 nth_error Js.field]. rewrite Htags.
    repeat (case_scrutinee; cbn [fst snd]);
      eexists; (split; [reflexivity |]); split; trivial;
      cbn; rewrite ?Hnull; reflexivity.
  - rewrite (fetchWordFrequency_untagged env w wd fields others Hget Htags), Hnull.
    eexists; repeat split.
Qed.

Lemma zero_score_reads_as_null_witness :
  exists r,
    fst (fetchWordFrequency
           (mkEnv (fun _ w => Normal (JArr [JObj [("word", JStr w); ("score", JNum 0);
                                                  ("tags", JArr [JStr "f:0.02"])]]))
                  (fun _ => None) (fun _ => "2024-01-01T00:00:00.000Z")
                  (fun _ => Normal false))
           "qoph" (world_of [])) = Normal r /\
    prop r "score" = Some JNull /\ True.
Proof.
  apply (zero_score_reads_as_null
           (mkEnv (fun _ w => Normal (JArr [JObj [("word", JStr w); ("score", JNum 0);
                                                  ("tags", JArr [JStr "f:0.02"])]]))
                  (fun _ => None) (fun _ => "2024-01-01T00:00:00.000Z")
                  (fun _ => Normal false))
           "qoph" (world_of [])
           [("word", JStr "qoph"); ("score", JNum 0); ("tags", JArr [JStr "f:0.02"])] []).
  - reflexivity.
  - left. reflexivity.
Defined.
(* ===================================================================== *)
(** ** Selection: [queryWordsNeedingInfo] *)
(* ===================================================================== *)

Lemma eligible_spec d :
  eligible d = true <->
  language d = "english" /\ source d = "wiktionary" /\ info d = None.
Proof.
  unfold eligible. rewrite !andb_true_iff, !String.eqb_eq.
  destruct (info d); intuition congruence.
Qed.

Lemma no_eligible_rows table :
  (forall d, In d table -> eligible d = false) -> filter eligible table = [].
Proof.
  induction table as [| d rest IH]; cbn; intros Hnone; [reflexivity |].
  rewrite (Hnone d (or_introl eq_refl)). apply IH.
  intros x Hx. apply Hnone. now right.
Qed.

Lemma insert_by_created_at_perm r rows :
  Permutation (insert_by_created_at r rows) (r :: rows).
Proof.
  induction rows as [| x rest IH]; cbn.
  - reflexivity.
  - destruct (created_at r <=? created_at x)%Z.
    + reflexivity.
    + rewrite IH. apply perm_swap.
Qed.

Lemma order_by_created_at_perm rows :
  Permutation (order_by_created_at rows) rows.
Proof.
  induction rows as [| r rest IH]; cbn.
  - reflexivity.
  - rewrite insert_by_created_at_perm. now constructor.
Qed.

Lemma insert_by_created_at_sorted r rows :
  Sorted older_or_same rows -> Sorted older_or_same (insert_by_created_at r rows).
Proof.
  induction 1 as [| x rest Hrest IH Hhd]; cbn.
  - repeat constructor.
  - destruct (Z.leb_spec (created_at r) (created_at x)) as [Hle | Hgt].
    + repeat constructor; assumption.
    + constructor; [assumption |].
      destruct Hhd as [| y rest' Hxy]; cbn.
      * constructor. unfold older_or_same. lia.
      * destruct (created_at r <=? created_at y)%Z; constructor;
          unfold older_or_same in *; lia.
Qed.

Lemma order_by_created_at_sorted rows :
  oldest_first (order_by_created_at rows).
Proof.
  apply Sorted_StronglySorted.
  - intros a b c; unfold older_or_same; lia.
  - induction rows as [| r rest IH]; cbn.
    + constructor.
    + now apply insert_by_created_at_sorted.
Qed.

Lemma select_pending_length limit table :
  List.length (select_pending limit table)
  = Nat.min limit (List.length (filter eligible table)).
Proof.
  unfold select_pending. rewrite length_firstn.
  now rewrite (Permutation_length (order_by_created_at_perm _)).
Qed.

Section SelectionFacts.

Variable env : Env.

Lemma queryWordsNeedingInfo_unfold limit wd :
  queryWordsNeedingInfo env limit wd =
  match pool_fault env (tick wd) with
  | Some e => (Throw e, advance wd)
  | None => (Normal (map word (select_pending limit (dictionary wd))), advance wd)
  end.
Proof.
  unfold queryWordsNeedingInfo, pool_query. unfold_eff.
  destruct (pool_fault env (tick wd)); reflexivity.
Qed.

Lemma queryWordsNeedingInfo_length limit wd words wd' :
  queryWordsNeedingInfo env limit wd = (Normal words, wd') ->
  List.length words <= limit /\ dictionary wd' = dictionary wd.
Proof.
  rewrite queryWordsNeedingInfo_unfold.
  destruct (pool_fault env (tick wd)); intros H; inversion H; subst.
  rewrite length_map, select_pending_length. split; [lia | reflexivity].
Qed.

End SelectionFacts.

(** C7. When the SELECT succeeds, the words it returns are those of the
    first [limit] rows, oldest first, among exactly the rows that have
    language english, source wiktionary and no info: at most [limit] of
    them, all of them when there are no more than [limit], and none when no
    row is eligible. The table is left as it was. *)
Theorem queryWordsNeedingInfo_selects (env : Env) (limit : nat) (wd wd' : World)
        (words : list string) :
  queryWordsNeedingInfo env limit wd = (Normal words, wd') ->
  exists selected rest,
    words = map word selected /\
    List.length selected = Nat.min limit (List.length (filter eligible (dictionary wd))) /\
    List.length words <= limit /\
    oldest_first (selected ++ rest) /\
    Permutation (selected ++ rest) (filter eligible (dictionary wd)) /\
    (forall d, In d (selected ++ rest) <->
               In d (dictionary wd) /\
               language d = "english" /\ source d = "wiktionary" /\ info d = None) /\
    ((forall d, In d (dictionary wd) -> eligible d = false) -> words = []) /\
    dictionary wd' = dictionary wd.
Proof.
  intros Hq.
  destruct (queryWordsNeedingInfo_length env limit wd words wd' Hq) as [Hlen Hdict].
  rewrite queryWordsNeedingInfo_unfold in Hq.
  destruct (pool_fault env (tick wd)); inversion Hq; subst; clear Hq.
  set (sorted := order_by_created_at (filter eligible (dictionary wd))).
  exists (firstn limit sorted), (skipn limit sorted).
  rewrite firstn_skipn.
  assert (Hperm : Permutation sorted (filter eligible (dictionary wd)))
    by apply order_by_created_at_perm.
  split; [reflexivity |].
  split; [apply select_pending_length |].
  split; [assumption |].
  split; [apply order_by_created_at_sorted |].
  split; [assumption |].
  split; [| split; [| reflexivity]].
  - intros d. rewrite <- eligible_spec, <- filter_In.
    split; apply Permutation_in; [assumption | now apply Permutation_sym].
  - intros Hnone. unfold select_pending.
    rewrite (no_eligible_rows _ Hnone). now rewrite firstn_nil.
Qed.

Lemma queryWordsNeedingInfo_selects_witness :
  exists selected rest,
    ["b"; "a"] = map word selected /\
    List.length selected
    = Nat.min 2 (List.length (filter eligible (dictionary mixed_world))) /\
    List.length ["b"; "a"] <= 2 /\
    oldest_first (selected ++ rest) /\
    Permutation (selected ++ rest) (filter eligible (dictionary mixed_world)) /\
    (forall d, In d (selected ++ rest) <->
               In d (dictionary mixed_world) /\
               language d = "english" /\ source d = "wiktionary" /\ info d = None) /\
    ((forall d, In d (dictionary mixed_world) -> eligible d = false)
     -> ["b"; "a"] = []) /\
    dictionary (advance mixed_world) = dictionary mixed_world.
Proof.
  apply (queryWordsNeedingInfo_selects calm_env 2 mixed_world (advance mixed_world)
                                       ["b"; "a"]).
  reflexivity.
Defined.

(* ===================================================================== *)
(** ** One batch: [processWords] *)
(* ===================================================================== *)

Section BatchFacts.

Variable env : Env.

Lemma updateWordInfo_unfold w i wd :
  updateWordInfo env w i wd =
  match pool_fault env (tick wd) with
  | Some e => (Throw e, advance wd)
  | None =>
      (Normal (0 <? rowCount w (dictionary wd))%nat,
       mkWorld (set_info i w (dictionary wd)) (S (tick wd)) (slept wd))
  end.
Proof.
  unfold updateWordInfo, pool_query. unfold_eff.
  destruct (pool_fault env (tick wd)); reflexivity.
Qed.

(** What one turn of the loop does to the counters, by the outcome of the
    UPDATE for the record that the lookup returned. *)
Lemma process_word_unfold n delayMs w c wd :
  exists r, fst (fetchWordFrequency env w wd) = Normal r /\
  process_word env n delayMs w (c, wd) =
  match updateWordInfo env w r (advance wd) with
  | (Throw _, wd') => (Normal tt, (incr_error c, wd'))
  | (Normal ok, wd') =>
      let c' := incr_processed (if ok then incr_success c else incr_error c) in
      (Normal tt,
       (c', if (processedCount c' <? n)%nat
            then mkWorld (dictionary wd') (tick wd') (slept wd' + delayMs)%Z
            else wd'))
  end.
Proof.
  destruct (fetchWordFrequency_returns env w wd) as (r & Hr & _).
  exists r. rewrite Hr. split; [reflexivity |].
  unfold process_word. unfold_eff. rewrite Hr. cbn [fst snd].
  destruct (updateWordInfo env w r (advance wd)) as [[[|] | e] wd'];
    cbn [fst snd]; try reflexivity;
    destruct (_ <? n)%nat; reflexivity.
Qed.

(** A turn of the loop never throws, and moves the counters in one of
    three ways. *)
Lemma process_word_cases n delayMs w c wd :
  exists c' wd',
    process_word env n delayMs w (c, wd) = (Normal tt, (c', wd')) /\
    (c' = incr_processed (incr_success c) \/
     c' = incr_processed (incr_error c) \/
     c' = incr_error c).
Proof.
  destruct (process_word_unfold n delayMs w c wd) as (r & _ & ->).
  destruct (updateWordInfo env w r (advance wd)) as [[[|] | e] wd'];
    cbn zeta; do 2 eexists; (split; [reflexivity |]); auto.
Qed.

(** A word whose UPDATE raises adds one to the error count only. *)
Lemma process_word_update_raises n delayMs w c wd r e wd' :
  fst (fetchWordFrequency env w wd) = Normal r ->
  updateWordInfo env w r (advance wd) = (Throw e, wd') ->
  process_word env n delayMs w (c, wd) = (Normal tt, (incr_error c, wd')).
Proof.
  intros Hr Hup.
  destruct (process_word_unfold n delayMs w c wd) as (r' & Hr' & ->).
  assert (r' = r) by congruence. subst r'. now rewrite Hup.
Qed.

Lemma for_of_process_word n delayMs words :
  forall c wd,
  exists c' wd',
    for_of words (process_word env n delayMs) (c, wd) = (Normal tt, (c', wd')) /\
    successCount c' + errorCount c' = successCount c + errorCount c + List.length words /\
    processedCount c' <= processedCount c + List.length words /\
    processedCount c' + successCount c <= processedCount c + successCount c' + errorCount c' - errorCount c.
Proof.
  induction words as [| w rest IH]; intros c wd; cbn [for_of List.length].
  - exists c, wd. unfold ret. repeat split; lia.
  - destruct (process_word_cases n delayMs w c wd) as (c1 & wd1 & Hstep & Hc1).
    destruct (IH c1 wd1) as (c' & wd' & Hrest & Hsum & Hproc & Hrel).
    exists c', wd'. unfold bind. rewrite Hstep, Hrest.
    split; [reflexivity |].
    destruct Hc1 as [-> | [-> | ->]]; cbn in *; repeat split; lia.
Qed.

(** The three ways [processWords] can end. *)
Lemma processWords_cases batchSize delayMs wd :
  (exists e wd',
      queryWordsNeedingInfo env batchSize wd = (Throw e, wd') /\
      processWords env batchSize delayMs wd = (Throw e, wd')) \/
  (exists wd',
      queryWordsNeedingInfo env batchSize wd = (Normal [], wd') /\
      processWords env batchSize delayMs wd = (Normal None, wd')) \/
  (exists words wd1 r wd',
      queryWordsNeedingInfo env batchSize wd = (Normal words, wd1) /\
      words <> [] /\
      processWords env batchSize delayMs wd = (Normal (Some r), wd') /\
      successCount r + errorCount r = List.length words /\
      processedCount r <= List.length words).
Proof.
  unfold processWords, run_locals. unfold_eff.
  destruct (queryWordsNeedingInfo env batchSize wd) as [[words | e] wd1].
  - destruct words as [| w rest].
    + right; left. exists wd1. split; reflexivity.
    + right; right.
      destruct (for_of_process_word (List.length (w :: rest)) delayMs (w :: rest)
                                    (mkCounts 0 0 0) wd1)
        as (c' & wd' & Hloop & Hsum & Hproc & _).
      exists (w :: rest), wd1, c', wd'.
      split; [reflexivity |]. split; [discriminate |].
      cbn [Nat.eqb List.length] in *. rewrite Hloop. cbn [fst snd].
      split; [reflexivity |]. cbn in *. split; lia.
  - left. exists e, wd1. split; reflexivity.
Qed.

End BatchFacts.

(** C2, as the code has it. When the SELECT returns no row, [processWords]
    returns [undefined], not a record of three zero counts. *)
Theorem processWords_undefined_when_none_pending
        (env : Env) (batchSize : nat) (delayMs : Z) (wd wd' : World) :
  queryWordsNeedingInfo env batchSize wd = (Normal [], wd') ->
  processWords env batchSize delayMs wd = (Normal None, wd').
Proof.
  intros Hq.
  destruct (processWords_cases env batchSize delayMs wd)
    as [(e & w1 & Hq' & _) | [(w1 & Hq' & Hp) | (ws & w1 & r & w2 & Hq' & Hne & _)]];
    rewrite Hq in Hq'; inversion Hq'; subst; congruence.
Qed.

Lemma processWords_undefined_when_none_pending_witness :
  processWords calm_env 1000 200 (world_of []) = (Normal None, advance (world_of [])).
Proof.
  apply (processWords_undefined_when_none_pending
           calm_env 1000 200 (world_of []) (advance (world_of []))).
  reflexivity.
Defined.

(** C3, as the code has it. Five words are pending and the UPDATE for the
    third one raises: [processWords] returns normally with four words
    processed, four successes and one error, and the third row keeps its
    null info. *)
Theorem processWords_skips_processed_on_raise :
  fst (processWords third_update_fails 5 200 five_pending)
  = Normal (Some (mkCounts 4 4 1)) /\
  map (fun d => (word d, match info d with Some _ => true | None => false end))
      (dictionary (snd (processWords third_update_fails 5 200 five_pending)))
  = [("a", true); ("b", true); ("c", false); ("d", true); ("e", true)].
Proof. split; vm_compute; reflexivity. Qed.

(** Whenever [processWords] returns counts, the processed count is at most
    the batch size. *)
Theorem processWords_processed_le_batchSize
        (env : Env) (batchSize : nat) (delayMs : Z) (wd wd' : World) (r : Counts) :
  processWords env batchSize delayMs wd = (Normal (Some r), wd') ->
  processedCount r <= batchSize.
Proof.
  intros Hp.
  destruct (processWords_cases env batchSize delayMs wd)
    as [(e & w1 & _ & Hp') | [(w1 & _ & Hp') | (ws & w1 & r' & w2 & Hq & _ & Hp' & _ & Hle)]];
    rewrite Hp in Hp'; inversion Hp'; subst.
  apply queryWordsNeedingInfo_length in Hq. lia.
Qed.

Lemma processWords_processed_le_batchSize_witness :
  fst (processWords calm_env 3 200 five_pending) = Normal (Some (mkCounts 3 3 0)) /\
  processedCount (mkCounts 3 3 0) <= 3.
Proof.
  split; [reflexivity |].
  apply (processWords_processed_le_batchSize
           calm_env 3 200 five_pending
           (snd (processWords calm_env 3 200 five_pending))
           (mkCounts 3 3 0)).
  reflexivity.
Defined.

(** C9. For a batch that selects at least one word, [processWords] returns
    counts, and successes plus errors equal the number of selected words. *)
Theorem processWords_success_plus_error
        (env : Env) (batchSize : nat) (delayMs : Z) (wd wd1 : World)
        (words : list string) :
  queryWordsNeedingInfo env batchSize wd = (Normal words, wd1) ->
  words <> [] ->
  exists r wd',
    processWords env batchSize delayMs wd = (Normal (Some r), wd') /\
    successCount r + errorCount r = List.length words.
Proof.
  intros Hq Hne.
  destruct (processWords_cases env batchSize delayMs wd)
    as [(e & w1 & Hq' & _) | [(w1 & Hq' & _) | (ws & w1 & r & w2 & Hq' & _ & Hp & Hsum & _)]];
    rewrite Hq in Hq'; inversion Hq'; subst; try congruence.
  exists r, w2. split; assumption.
Qed.

Lemma processWords_success_plus_error_witness :
  exists r wd',
    processWords third_update_fails 5 200 five_pending = (Normal (Some r), wd') /\
    successCount r + errorCount r = List.length ["e"; "d"; "c"; "b"; "a"].
Proof.
  apply (processWords_success_plus_error
           third_update_fails 5 200 five_pending (advance five_pending)
           ["e"; "d"; "c"; "b"; "a"]).
  - reflexivity.
  - discriminate.
Defined.

Lemma set_info_targets i w table d :
  In d (set_info i w table) -> update_target w d = true -> info d = Some i.
Proof.
  unfold set_info. rewrite in_map_iff. intros (x & Hx & _) Ht.
  destruct (update_target w x) eqn:Hux; subst d; [reflexivity | congruence].
Qed.

(** C5. When the answer has no entry, the lookup returns the record with
    [frequency = null], [score = null] and the not-found error; the loop
    hands that record to [updateWordInfo], and when the UPDATE reports a
    changed row the word adds one to the success count and to the processed
    count, nothing to the error count, and every row of that word holds the
    not-found record. *)
Theorem not_found_counts_as_success
        (env : Env) (n : nat) (delayMs : Z) (w : string) (c : Counts) (wd wd' : World) :
  axios_get env (tick wd) w = Normal (JArr []) ->
  updateWordInfo env w (failure_info not_found_message (clock env (S (tick wd))))
                 (advance wd) = (Normal true, wd') ->
  fst (fetchWordFrequency env w wd)
  = Normal (JObj [("frequency", JNull); ("score", JNull);
                  ("fetched_at", JStr (clock env (S (tick wd))));
                  ("error", JStr "Word not found in Datamuse database")]) /\
  (exists wd'',
      process_word env n delayMs w (c, wd)
      = (Normal tt,
         (mkCounts (S (processedCount c)) (S (successCount c)) (errorCount c), wd'')) /\
      dictionary wd'' = dictionary wd') /\
  (forall d, In d (dictionary wd') -> update_target w d = true ->
             info d = Some (failure_info not_found_message (clock env (S (tick wd))))).
Proof.
  intros Hget Hup.
  pose proof (fetchWordFrequency_no_entry env w wd Hget) as Hfetch.
  split; [rewrite Hfetch; reflexivity |]. split.
  - destruct (process_word_unfold env n delayMs w c wd) as (r & Hr & ->).
    rewrite Hfetch in Hr. cbn [fst] in Hr. inversion Hr; subst r. rewrite Hup.
    cbn zeta. destruct (_ <? n)%nat; eexists; split; reflexivity.
  - rewrite updateWordInfo_unfold in Hup.
    destruct (pool_fault env (tick (advance wd))); [discriminate |].
    injection Hup as _ <-. cbn [dictionary advance].
    intros d. apply set_info_targets.
Qed.

Lemma not_found_counts_as_success_witness :
  fst (fetchWordFrequency empty_env "e" (advance five_pending))
  = Normal (JObj [("frequency", JNull); ("score", JNull);
                  ("fetched_at", JStr "2024-01-01T00:00:00.000Z");
                  ("error", JStr "Word not found in Datamuse database")]) /\
  (exists wd'',
      process_word empty_env 5 200 "e" (mkCounts 0 0 0, advance five_pending)
      = (Normal tt, (mkCounts 1 1 0, wd'')) /\
      dictionary wd''
      = dictionary (snd (updateWordInfo
                           empty_env "e"
                           (failure_info not_found_message "2024-01-01T00:00:00.000Z")
                           (advance (advance five_pending))))) /\
  (forall d,
      In d (dictionary (snd (updateWordInfo
                               empty_env "e"
                               (failure_info not_found_message "2024-01-01T00:00:00.000Z")
                               (advance (advance five_pending))))) ->
      update_target "e" d = true ->
      info d = Some (failure_info not_found_message "2024-01-01T00:00:00.000Z")).
Proof.
  apply (not_found_counts_as_success
           empty_env 5 200 "e" (mkCounts 0 0 0) (advance five_pending)
           (snd (updateWordInfo
                   empty_env "e"
                   (failure_info not_found_message "2024-01-01T00:00:00.000Z")
                   (advance (advance five_pending))))).
  - reflexivity.
  - reflexivity.
Defined.

(* ===================================================================== *)
(** ** The runner: [processAllWords] *)
(* ===================================================================== *)

Section RunnerFacts.

Variable env : Env.
Variables (batchSize : nat) (delayMs batchDelayMs : Z).

(** With no pending row, a turn of the runner ends in its [catch]: the
    SELECT either fails or finds nothing, and then [processWords] returns
    [undefined], whose [processedCount] cannot be read. The table is
    untouched and the loop goes on. *)
Lemma batch_turn_without_pending t wd :
  (forall d, In d (dictionary wd) -> eligible d = false) ->
  exists wd',
    batch_turn env batchSize delayMs batchDelayMs (t, wd)
    = (Normal Continue, (incr_totalErrors t, wd')) /\
    dictionary wd' = dictionary wd.
Proof.
  intros Hnone.
  pose proof (queryWordsNeedingInfo_unfold env batchSize wd) as Hq.
  unfold select_pending in Hq. rewrite (no_eligible_rows _ Hnone), firstn_nil in Hq.
  cbn [map] in Hq.
  destruct (processWords_cases env batchSize delayMs wd)
    as [(e & w1 & Hq' & Hp) | [(w1 & Hq' & Hp) | (ws & w1 & r & w2 & Hq' & Hne & _)]];
    rewrite Hq in Hq'; destruct (pool_fault env (tick wd)); inversion Hq'; subst;
    try congruence;
    unfold batch_turn; unfold_eff; rewrite Hp; cbn [fst snd];
    eexists; split; reflexivity.
Qed.

Lemma while_true_without_pending fuel :
  forall t wd,
    (forall d, In d (dictionary wd) -> eligible d = false) ->
    while_true fuel (batch_turn env batchSize delayMs batchDelayMs) (t, wd) = None.
Proof.
  induction fuel as [| fuel IH]; intros t wd Hnone; cbn [while_true].
  - reflexivity.
  - destruct (batch_turn_without_pending t wd Hnone) as (wd' & -> & Hdict).
    apply IH. now rewrite Hdict.
Qed.

End RunnerFacts.

(** C1, as the code has it. When the store has no pending row, the runner
    never leaves its loop: whatever the number of turns it is given, and
    whatever the service and the pool do, it has not returned. *)
Theorem processAllWords_spins_without_pending
        (env : Env) (batchSize : nat) (delayMs batchDelayMs : Z) (wd : World)
        (fuel : nat) :
  (forall d, In d (dictionary wd) -> eligible d = false) ->
  processAllWords env fuel batchSize delayMs batchDelayMs wd = None.
Proof.
  intros Hnone. unfold processAllWords.
  now rewrite while_true_without_pending.
Qed.

Lemma processAllWords_spins_without_pending_witness :
  processAllWords calm_env 1000 1000 200 5000 (world_of []) = None.
Proof.
  apply (processAllWords_spins_without_pending
           calm_env 1000 200 5000 (world_of []) 1000).
  intros d [].
Defined.

(* ===================================================================== *)
(** ** Sample runs *)
(* ===================================================================== *)

(** An unreachable service: the lookup folds the rejection into its record,
    the loop stores the record, and the batch counts five successes. *)
Example lookup_offline :
  fst (fetchWordFrequency offline_env "a" (world_of []))
  = Normal (failure_info "timeout of 10000ms exceeded" "2024-01-01T00:00:00.000Z").
Proof. reflexivity. Qed.

Example batch_offline :
  fst (processWords offline_env 10 200 five_pending) = Normal (Some (mkCounts 5 5 0)).
Proof. vm_compute. reflexivity. Qed.

(** Oldest first, capped by the limit. *)
Example select_three :
  fst (queryWordsNeedingInfo calm_env 3 five_pending) = Normal ["e"; "d"; "c"].
Proof. reflexivity. Qed.

(** Five pending words and a batch size of ten: one short batch, and the
    runner returns after one turn, having slept four times 200 ms. *)
Example runner_short_batch :
  option_map (fun r => (fst r, slept (snd r)))
             (processAllWords calm_env 1 10 200 5000 five_pending)
  = Some (Normal (mkTotals 5 5 0 2), 800%Z).
Proof. vm_compute. reflexivity. Qed.

(** Five pending words and a batch size of five: the first batch is full,
    the second selection is empty, and the runner is still looping after
    fifty turns. *)
Example runner_full_batch_then_spins :
  processAllWords calm_env 50 5 200 5000 five_pending = None.
Proof. vm_compute. reflexivity. Qed.

(* ===================================================================== *)
(** ** The store under [updateWordInfo] *)
(* ===================================================================== *)

Lemma set_info_keys i w table :
  map row_key (set_info i w table) = map row_key table.
Proof.
  unfold set_info. rewrite map_map. apply map_ext.
  intros d. destruct (update_target w d); reflexivity.
Qed.

Lemma update_target_key w d d' :
  row_key d = row_key d' -> update_target w d = update_target w d'.
Proof.
  unfold row_key, update_target. intros H. injection H as -> -> -> _. reflexivity.
Qed.

Lemma rowCount_keys w table table' :
  map row_key table = map row_key table' -> rowCount w table = rowCount w table'.
Proof.
  unfold rowCount. revert table'.
  induction table as [| d rest IH]; intros [| d' rest'] H; try discriminate; [reflexivity |].
  assert (Hd : row_key d = row_key d') by (cbn [map] in H; congruence).
  assert (Hrest : map row_key rest = map row_key rest') by (cbn [map] in H; congruence).
  cbn.
  rewrite (update_target_key w d d' Hd).
  destruct (update_target w d'); cbn; rewrite (IH rest' Hrest); reflexivity.
Qed.

Lemma set_info_idempotent i w table :
  set_info i w (set_info i w table) = set_info i w table.
Proof.
  unfold set_info. rewrite map_map. apply map_ext.
  intros d. destruct (update_target w d) eqn:Ht.
  - unfold update_target in *. cbn. rewrite Ht. reflexivity.
  - rewrite Ht. reflexivity.
Qed.

Lemma rowCount_zero w table :
  rowCount w table = 0 <-> forall d, In d table -> update_target w d = false.
Proof.
  unfold rowCount. induction table as [| d rest IH]; cbn.
  - split; [intros _ d [] | reflexivity].
  - destruct (update_target w d) eqn:Ht; cbn.
    + split; [discriminate |]. intros H. specialize (H d (or_introl eq_refl)). congruence.
    + rewrite IH. split.
      * intros H x [<- | Hx]; auto.
      * intros H x Hx. apply H. now right.
Qed.

Lemma set_info_without_target i w table :
  rowCount w table = 0 -> set_info i w table = table.
Proof.
  rewrite rowCount_zero. intros H.
  unfold set_info. rewrite <- (map_id table) at 2.
  apply map_ext_in. intros d Hd. now rewrite (H d Hd).
Qed.

Lemma set_info_keeps_others i w table d :
  In d table -> update_target w d = false -> In d (set_info i w table).
Proof.
  intros Hin Ht. unfold set_info. apply in_map_iff. exists d.
  rewrite Ht. split; [reflexivity | assumption].
Qed.

(** An UPDATE takes the rows of its word out of the pending rows and leaves
    the other pending rows as they are, in their order. *)
Lemma pending_rows_set_info i w table :
  pending_rows (set_info i w table)
  = filter (fun d => negb (word d =? w)) (pending_rows table).
Proof.
  unfold pending_rows, set_info.
  induction table as [| d rest IH]; cbn [map filter]; [reflexivity |].
  rewrite IH. clear IH.
  unfold update_target, eligible.
  destruct (word d =? w) eqn:Hw, (language d =? "english") eqn:Hl,
           (source d =? "wiktionary") eqn:Hs, (info d) eqn:Hi;
    cbn; rewrite ?Hw, ?Hl, ?Hs, ?Hi; cbn; rewrite ?Hw; reflexivity.
Qed.

Lemma select_pending_in limit table d :
  In d (select_pending limit table) -> In d (pending_rows table).
Proof.
  unfold select_pending, pending_rows. intros Hin.
  apply (Permutation_in _ (order_by_created_at_perm _)).
  rewrite <- (firstn_skipn limit). apply in_or_app. now left.
Qed.

Section UpdateFacts.

Variable env : Env.

(** X1. [updateWordInfo] is idempotent: when two calls with the same word and
    the same info both get through, the second leaves the table as the first
    left it and returns the same boolean. *)
Theorem updateWordInfo_idempotent (w : string) (i : Json) (wd wd1 wd2 : World)
        (b1 b2 : bool) :
  updateWordInfo env w i wd = (Normal b1, wd1) ->
  updateWordInfo env w i wd1 = (Normal b2, wd2) ->
  dictionary wd2 = dictionary wd1 /\ b2 = b1.
Proof.
  rewrite !updateWordInfo_unfold.
  destruct (pool_fault env (tick wd)); [discriminate |].
  destruct (pool_fault env (tick wd1)); [discriminate |].
  intros H1 H2. injection H1 as <- <-. injection H2 as <- <-. cbn [dictionary].
  split; [apply set_info_idempotent |].
  f_equal. apply rowCount_keys, set_info_keys.
Qed.

(** X2. A word that [updateWordInfo] has been called for without raising is
    not selected again: on the table it leaves, [queryWordsNeedingInfo]
    returns no row of that word, whatever the limit. *)
Theorem updateWordInfo_never_reselected (w : string) (i : Json) (wd wd1 wd2 wd3 : World)
        (b : bool) (limit : nat) (words : list string) :
  updateWordInfo env w i wd = (Normal b, wd1) ->
  dictionary wd2 = dictionary wd1 ->
  queryWordsNeedingInfo env limit wd2 = (Normal words, wd3) ->
  ~ In w words.
Proof.
  rewrite updateWordInfo_unfold, queryWordsNeedingInfo_unfold.
  destruct (pool_fault env (tick wd)); [discriminate |].
  destruct (pool_fault env (tick wd2)); [discriminate |].
  intros H1 Hd H2. injection H1 as _ <-. injection H2 as <- _.
  rewrite Hd. cbn [dictionary]. unfold select_pending.
  intros Hin. apply in_map_iff in Hin. destruct Hin as (d & Hw & Hin).
  apply select_pending_in in Hin.
  rewrite pending_rows_set_info in Hin. apply filter_In in Hin.
  destruct Hin as [_ Hne]. rewrite Hw, String.eqb_refl in Hne. discriminate.
Qed.

(** X3. [updateWordInfo] returns [false] exactly when the table has no row
    with that word, language english and source wiktionary, and then the
    table is unchanged. *)
Theorem updateWordInfo_false_iff_no_row (w : string) (i : Json) (wd wd1 : World) (b : bool) :
  updateWordInfo env w i wd = (Normal b, wd1) ->
  (b = false <-> forall d, In d (dictionary wd) -> update_target w d = false) /\
  (b = false -> dictionary wd1 = dictionary wd).
Proof.
  rewrite updateWordInfo_unfold.
  destruct (pool_fault env (tick wd)); [discriminate |].
  intros H. injection H as <- <-. cbn [dictionary].
  rewrite <- rowCount_zero, Nat.ltb_ge.
  split.
  - split; lia.
  - intros H. apply set_info_without_target. lia.
Qed.

(** X4. An [updateWordInfo] that gets through changes nothing but the info of
    the rows of its word: word, language, source and creation time of every
    row stay, in the same order; the rows it does not target stay; the rows
    it targets hold the given info; and the pending rows are the former ones
    without those of that word. *)
Theorem updateWordInfo_changes_only_info (w : string) (i : Json) (wd wd1 : World) (b : bool) :
  updateWordInfo env w i wd = (Normal b, wd1) ->
  map row_key (dictionary wd1) = map row_key (dictionary wd) /\
  (forall d, In d (dictionary wd) -> update_target w d = false -> In d (dictionary wd1)) /\
  (forall d, In d (dictionary wd1) -> update_target w d = true -> info d = Some i) /\
  pending_rows (dictionary wd1)
  = filter (fun d => negb (word d =? w)) (pending_rows (dictionary wd)).
Proof.
  rewrite updateWordInfo_unfold.
  destruct (pool_fault env (tick wd)); [discriminate |].
  intros H. injection H as _ <-. cbn [dictionary].
  split; [apply set_info_keys |].
  split; [intros d; apply set_info_keeps_others |].
  split; [intros d; apply set_info_targets |].
  apply pending_rows_set_info.
Qed.

End UpdateFacts.

(* ===================================================================== *)
(** ** The loop of [processWords], turn by turn *)
(* ===================================================================== *)

Section LoopFacts.

Variable env : Env.
Variables (n : nat) (delayMs : Z).

(** What the lookup returns depends on the tick of the request only. *)
Lemma lookup_at_spec w wd :
  fst (fetchWordFrequency env w wd) = lookup_at env (tick wd) w.
Proof.
  unfold lookup_at. rewrite !fetchWordFrequency_unfold. cbn [tick].
  replace (fst (fetchWordFrequency_try env w (mkWorld [] (tick wd) 0)))
    with (fst (fetchWordFrequency_try env w wd));
    [destruct (fst (fetchWordFrequency_try env w wd)); reflexivity |].
  unfold fetchWordFrequency_try, http_get_words, toISOString_now.
  unfold_eff. cbn [tick advance].
  repeat (case_scrutinee; cbn [fst snd tick advance]); reflexivity.
Qed.

(** A turn of the loop, spelled out: the lookup takes one tick, the UPDATE
    the next one. *)
Lemma process_word_step w c wd :
  exists r,
    lookup_at env (tick wd) w = Normal r /\
    process_word env n delayMs w (c, wd) =
    (Normal tt,
     match pool_fault env (S (tick wd)) with
     | Some _ => (incr_error c, mkWorld (dictionary wd) (S (S (tick wd))) (slept wd))
     | None =>
         let c' := incr_processed (if (0 <? rowCount w (dictionary wd))%nat
                                   then incr_success c else incr_error c) in
         (c', mkWorld (set_info r w (dictionary wd)) (S (S (tick wd)))
                      (if (processedCount c' <? n)%nat
                       then (slept wd + delayMs)%Z else slept wd))
     end).
Proof.
  destruct (process_word_unfold env n delayMs w c wd) as (r & Hr & ->).
  exists r. split.
  - now rewrite <- lookup_at_spec.
  - rewrite updateWordInfo_unfold. cbn [advance tick dictionary slept].
    destruct (pool_fault env (S (tick wd))); [reflexivity |].
    destruct (0 <? rowCount w (dictionary wd))%nat; cbn zeta;
      destruct (_ <? n)%nat; reflexivity.
Qed.

(** Induction over the turns of the loop, with a property that may mention
    the words still to come. *)
Lemma for_of_process_word_inv (P : list string -> Counts * World -> Prop) :
  (forall w rest s, P (w :: rest) s -> P rest (snd (process_word env n delayMs w s))) ->
  forall words s,
    P words s -> P [] (snd (for_of words (process_word env n delayMs) s)).
Proof.
  intros Hstep. induction words as [| w rest IH]; intros s Hs; cbn [for_of].
  - exact Hs.
  - destruct s as [c wd].
    destruct (process_word_cases env n delayMs w c wd) as (c1 & wd1 & Hrun & _).
    unfold bind. specialize (Hstep w rest (c, wd) Hs). rewrite Hrun in *.
    cbn [snd] in Hstep. now apply IH.
Qed.

End LoopFacts.

Lemma filter_all {A} (l : list A) : filter (fun _ => true) l = l.
Proof. induction l as [| x l IH]; cbn; [reflexivity | now rewrite IH]. Qed.

Lemma filter_twice {A} (f g : A -> bool) (l : list A) :
  filter g (filter f l) = filter (fun x => f x && g x) l.
Proof.
  induction l as [| x l IH]; cbn; [reflexivity |].
  destruct (f x); cbn; [destruct (g x) |]; now rewrite IH.
Qed.

Section BatchTurns.

Variable env : Env.
Variable delayMs : Z.

(** A batch that selected words runs the loop on them, from zero counts. *)
Lemma processWords_run batchSize wd words wd1 :
  queryWordsNeedingInfo env batchSize wd = (Normal words, wd1) ->
  words <> [] ->
  processWords env batchSize delayMs wd =
  (Normal (Some (fst (snd (for_of words (process_word env (List.length words) delayMs)
                                  (mkCounts 0 0 0, wd1))))),
   snd (snd (for_of words (process_word env (List.length words) delayMs)
                    (mkCounts 0 0 0, wd1)))).
Proof.
  intros Hq Hne. unfold processWords, run_locals. unfold_eff. rewrite Hq.
  destruct words as [| w rest]; [congruence |]. cbn [List.length Nat.eqb].
  destruct (for_of_process_word env (S (List.length rest)) delayMs (w :: rest)
                                (mkCounts 0 0 0) wd1) as (c' & wd' & -> & _).
  reflexivity.
Qed.

(** The outcome of [processWords] is that of its SELECT, or that of the loop
    on the words selected. *)
Lemma processWords_outcome batchSize wd :
  match pool_fault env (tick wd) with
  | Some e => processWords env batchSize delayMs wd = (Throw e, advance wd)
  | None =>
      let words := map word (select_pending batchSize (dictionary wd)) in
      match words with
      | [] => processWords env batchSize delayMs wd = (Normal None, advance wd)
      | _ :: _ =>
          processWords env batchSize delayMs wd =
          (Normal (Some (fst (snd (for_of words
                                          (process_word env (List.length words) delayMs)
                                          (mkCounts 0 0 0, advance wd))))),
           snd (snd (for_of words (process_word env (List.length words) delayMs)
                            (mkCounts 0 0 0, advance wd))))
      end
  end.
Proof.
  pose proof (queryWordsNeedingInfo_unfold env batchSize wd) as Hq.
  destruct (pool_fault env (tick wd)) as [e |].
  - unfold processWords. unfold_eff. now rewrite Hq.
  - cbn zeta. destruct (map word (select_pending batchSize (dictionary wd))) as [| w rest] eqn:Hw.
    + unfold processWords. unfold_eff. now rewrite Hq.
    + now apply processWords_run.
Qed.

(** Ticks spent and row keys kept by the loop. *)
Lemma loop_ticks_and_keys n words c wd :
  tick (snd (snd (for_of words (process_word env n delayMs) (c, wd))))
  = tick wd + 2 * List.length words /\
  map row_key (dictionary (snd (snd (for_of words (process_word env n delayMs) (c, wd)))))
  = map row_key (dictionary wd).
Proof.
  set (P := fun (rem : list string) (s : Counts * World) =>
              tick (snd s) + 2 * List.length rem = tick wd + 2 * List.length words /\
              map row_key (dictionary (snd s)) = map row_key (dictionary wd)).
  assert (Hend : P [] (snd (for_of words (process_word env n delayMs) (c, wd)))).
  { apply for_of_process_word_inv; [| split; reflexivity].
    intros w rest [c1 wd1] [Ht Hk]. unfold P. cbn [snd List.length] in *.
    destruct (process_word_step env n delayMs w c1 wd1) as (r & _ & ->). cbn [snd].
    destruct (pool_fault env (S (tick wd1))); cbn [snd tick dictionary];
      rewrite ?set_info_keys; split; (lia || assumption). }
  destruct Hend as [Ht Hk]. cbn [List.length] in Ht. split; [lia | exact Hk].
Qed.

(** The pauses of the loop: one after each word that gets through its
    UPDATE, as long as the processed count is below the number of words. *)
Lemma loop_pauses n words c wd :
  (slept (snd (snd (for_of words (process_word env n delayMs) (c, wd))))
   = slept wd
     + delayMs * (Z.of_nat (Nat.min (processedCount
                                       (fst (snd (for_of words (process_word env n delayMs)
                                                         (c, wd))))) (n - 1))
                  - Z.of_nat (Nat.min (processedCount c) (n - 1))))%Z.
Proof.
  set (P := fun (rem : list string) (s : Counts * World) =>
              (slept (snd s)
               = slept wd
                 + delayMs * (Z.of_nat (Nat.min (processedCount (fst s)) (n - 1))
                              - Z.of_nat (Nat.min (processedCount c) (n - 1))))%Z).
  assert (Hend : P [] (snd (for_of words (process_word env n delayMs) (c, wd)))).
  { apply for_of_process_word_inv; [| unfold P; cbn [fst snd]; lia].
    intros w rest [c1 wd1] Hs. unfold P in *. cbn [fst snd] in *.
    destruct (process_word_step env n delayMs w c1 wd1) as (r & _ & ->). cbn [snd].
    destruct (pool_fault env (S (tick wd1))); cbn [fst snd slept]; [exact Hs |].
    cbn zeta.
    assert (Hp : processedCount
                   (incr_processed (if (0 <? rowCount w (dictionary wd1))%nat
                                    then incr_success c1 else incr_error c1))
                 = S (processedCount c1))
      by (destruct (0 <? rowCount w (dictionary wd1))%nat; reflexivity).
    rewrite Hp. destruct (Nat.ltb_spec (S (processedCount c1)) n) as [Hlt | Hge].
    - replace (Nat.min (S (processedCount c1)) (n - 1))
        with (S (Nat.min (processedCount c1) (n - 1))) by lia.
      rewrite Nat2Z.inj_succ, Hs. ring.
    - replace (Nat.min (S (processedCount c1)) (n - 1))
        with (Nat.min (processedCount c1) (n - 1)) by lia.
      exact Hs. }
  exact Hend.
Qed.

(** Whatever the UPDATEs do, the success count never runs ahead of the
    processed count, nor the processed count ahead of successes plus
    errors. *)
Lemma loop_counts_ordered n words c wd :
  successCount c <= processedCount c ->
  processedCount c <= successCount c + errorCount c ->
  successCount (fst (snd (for_of words (process_word env n delayMs) (c, wd))))
  <= processedCount (fst (snd (for_of words (process_word env n delayMs) (c, wd)))) /\
  processedCount (fst (snd (for_of words (process_word env n delayMs) (c, wd))))
  <= successCount (fst (snd (for_of words (process_word env n delayMs) (c, wd))))
     + errorCount (fst (snd (for_of words (process_word env n delayMs) (c, wd)))).
Proof.
  intros Hlo Hhi.
  set (P := fun (rem : list string) (s : Counts * World) =>
              successCount (fst s) <= processedCount (fst s) /\
              processedCount (fst s) <= successCount (fst s) + errorCount (fst s)).
  assert (Hend : P [] (snd (for_of words (process_word env n delayMs) (c, wd)))).
  { apply for_of_process_word_inv; [| split; assumption].
    intros w rest [c1 wd1] [H1 H2]. unfold P. cbn [fst snd] in *.
    destruct (process_word_cases env n delayMs w c1 wd1)
      as (c2 & wd2 & -> & [-> | [-> | ->]]); cbn; lia. }
  exact Hend.
Qed.

(** The loop only takes rows out of the pending rows. *)
Lemma loop_pending_shrinks n words c wd :
  exists keep,
    pending_rows (dictionary (snd (snd (for_of words (process_word env n delayMs) (c, wd)))))
    = filter keep (pending_rows (dictionary wd)).
Proof.
  set (P := fun (rem : list string) (s : Counts * World) =>
              exists keep,
                pending_rows (dictionary (snd s)) = filter keep (pending_rows (dictionary wd))).
  assert (Hend : P [] (snd (for_of words (process_word env n delayMs) (c, wd)))).
  { apply for_of_process_word_inv.
    - intros w rest [c1 wd1] [keep Hk]. unfold P. cbn [snd] in *.
      destruct (process_word_step env n delayMs w c1 wd1) as (r & _ & ->). cbn [snd].
      destruct (pool_fault env (S (tick wd1))); cbn [snd dictionary].
      + now exists keep.
      + cbn zeta. rewrite pending_rows_set_info, Hk, filter_twice. eauto.
    - exists (fun _ => true). cbn [snd]. now rewrite filter_all. }
  exact Hend.
Qed.

End BatchTurns.

(* ===================================================================== *)
(** ** More on one batch *)
(* ===================================================================== *)

Lemma selected_word_has_row limit table w :
  In w (map word (select_pending limit table)) -> 0 < rowCount w table.
Proof.
  intros Hin. apply in_map_iff in Hin. destruct Hin as (d & Hw & Hd).
  apply select_pending_in, filter_In in Hd. destruct Hd as [Hd He].
  destruct (rowCount w table) eqn:Hc; [| lia].
  rewrite rowCount_zero in Hc. specialize (Hc d Hd).
  apply eligible_spec in He. destruct He as (Hl & Hs & _).
  unfold update_target in Hc. rewrite Hw, Hl, Hs, String.eqb_refl in Hc. discriminate.
Qed.

(** When [processWords] returns counts, they are those of the loop run on
    the selected words. *)
Lemma processWords_counts_inv env batchSize delayMs wd r wd' :
  processWords env batchSize delayMs wd = (Normal (Some r), wd') ->
  let words := map word (select_pending batchSize (dictionary wd)) in
  let final := snd (for_of words (process_word env (List.length words) delayMs)
                           (mkCounts 0 0 0, advance wd)) in
  words <> [] /\ r = fst final /\ wd' = snd final /\
  successCount r + errorCount r = List.length words.
Proof.
  intros Hp. cbn zeta.
  pose proof (processWords_outcome env delayMs batchSize wd) as Ho.
  destruct (pool_fault env (tick wd)); [congruence |]. cbn zeta in Ho.
  remember (map word (select_pending batchSize (dictionary wd))) as words eqn:Hw.
  destruct words as [| w rest]; [congruence |].
  rewrite Hp in Ho.
  destruct (for_of_process_word env (List.length (w :: rest)) delayMs (w :: rest)
                                (mkCounts 0 0 0) (advance wd))
    as (c' & wd1 & Hrun & Hsum & _).
  rewrite Hrun in *. cbn [fst snd] in *.
  assert (r = c') by congruence. assert (wd' = wd1) by congruence. subst.
  split; [discriminate |]. split; [reflexivity |]. split; [reflexivity |].
  cbn [successCount errorCount] in Hsum. lia.
Qed.

(** C6, as the code has it. With batch size 0 the SELECT returns no row, and
    [processWords] returns [undefined], or raises the pool's error: it
    returns no processed count that could be compared with the batch
    size. *)
Theorem processWords_no_counts_at_batchSize_zero
        (env : Env) (delayMs : Z) (wd : World) :
  match pool_fault env (tick wd) with
  | Some e => processWords env 0 delayMs wd = (Throw e, advance wd)
  | None => processWords env 0 delayMs wd = (Normal None, advance wd)
  end.
Proof.
  pose proof (processWords_outcome env delayMs 0 wd) as Ho.
  destruct (pool_fault env (tick wd)); [exact Ho |].
  cbn zeta in Ho. unfold select_pending in Ho. rewrite firstn_0 in Ho. exact Ho.
Qed.

(** X5. [processWords] raises exactly when the pool rejects its SELECT: it
    then raises the pool's error, having made that one call and nothing
    else; when the SELECT is accepted it returns normally, whatever lookups
    and UPDATEs do. *)
Theorem processWords_raises_only_on_select
        (env : Env) (batchSize : nat) (delayMs : Z) (wd : World) :
  match pool_fault env (tick wd) with
  | Some e => processWords env batchSize delayMs wd = (Throw e, advance wd)
  | None => exists r, fst (processWords env batchSize delayMs wd) = Normal r
  end.
Proof.
  pose proof (processWords_outcome env delayMs batchSize wd) as Ho.
  destruct (pool_fault env (tick wd)); [exact Ho |]. cbn zeta in Ho.
  destruct (map word (select_pending batchSize (dictionary wd)));
    rewrite Ho; eexists; reflexivity.
Qed.

(** X6. However it ends, [processWords] leaves word, language, source and
    creation time of every row as they were, in the same order: it adds,
    removes and reorders no row. *)
Theorem processWords_keeps_row_keys
        (env : Env) (batchSize : nat) (delayMs : Z) (wd : World) :
  map row_key (dictionary (snd (processWords env batchSize delayMs wd)))
  = map row_key (dictionary wd).
Proof.
  pose proof (processWords_outcome env delayMs batchSize wd) as Ho.
  destruct (pool_fault env (tick wd)); [now rewrite Ho |]. cbn zeta in Ho.
  destruct (map word (select_pending batchSize (dictionary wd))) as [| w rest];
    rewrite Ho; [reflexivity |]. cbn [snd].
  now destruct (loop_ticks_and_keys env delayMs (List.length (w :: rest)) (w :: rest)
                                    (mkCounts 0 0 0) (advance wd)) as [_ ->].
Qed.

(** X7. When [processWords] returns counts it has made one SELECT and, for
    each word counted as success or error, one lookup and one UPDATE: the
    tick advances by 1 + 2 * (success + error). *)
Theorem processWords_external_calls
        (env : Env) (batchSize : nat) (delayMs : Z) (wd wd' : World) (r : Counts) :
  processWords env batchSize delayMs wd = (Normal (Some r), wd') ->
  tick wd' = tick wd + 1 + 2 * (successCount r + errorCount r).
Proof.
  intros Hp. destruct (processWords_counts_inv _ _ _ _ _ _ Hp) as (_ & _ & -> & ->).
  destruct (loop_ticks_and_keys
              env delayMs
              (List.length (map word (select_pending batchSize (dictionary wd))))
              (map word (select_pending batchSize (dictionary wd)))
              (mkCounts 0 0 0) (advance wd)) as [-> _].
  cbn [tick advance]. lia.
Qed.

(** X8. When [processWords] returns counts, it has paused [delayMs]
    min(processed, N - 1) times in all, N being success + error, the number
    of selected words. So a batch in which every word was processed has
    paused N - 1 times, and a batch in which some word was not (its UPDATE
    raised) has paused once per processed word. *)
Theorem processWords_pauses
        (env : Env) (batchSize : nat) (delayMs : Z) (wd wd' : World) (r : Counts) :
  processWords env batchSize delayMs wd = (Normal (Some r), wd') ->
  (slept wd'
   = slept wd
     + delayMs * Z.of_nat (Nat.min (processedCount r)
                                   (successCount r + errorCount r - 1)))%Z /\
  (processedCount r = successCount r + errorCount r ->
   (slept wd' = slept wd + delayMs * Z.of_nat (processedCount r - 1))%Z) /\
  (processedCount r < successCount r + errorCount r ->
   (slept wd' = slept wd + delayMs * Z.of_nat (processedCount r))%Z).
Proof.
  intros Hp.
  assert (Hs : (slept wd'
                = slept wd
                  + delayMs * Z.of_nat (Nat.min (processedCount r)
                                                (successCount r + errorCount r - 1)))%Z).
  { destruct (processWords_counts_inv _ _ _ _ _ _ Hp) as (_ & Hr & -> & ->).
    rewrite loop_pauses. rewrite <- Hr.
    cbn [processedCount slept advance Nat.min Z.of_nat]. now rewrite Z.sub_0_r. }
  split; [exact Hs |]. split; intros Hc; rewrite Hs; do 3 f_equal; lia.
Qed.

(** X9. In the counts [processWords] returns, success is at most processed
    and processed is at most success plus error: a word is counted as
    processed only after it was counted as a success or as an error. *)
Theorem processWords_counts_ordered
        (env : Env) (batchSize : nat) (delayMs : Z) (wd wd' : World) (r : Counts) :
  processWords env batchSize delayMs wd = (Normal (Some r), wd') ->
  successCount r <= processedCount r /\
  processedCount r <= successCount r + errorCount r.
Proof.
  intros Hp. destruct (processWords_counts_inv _ _ _ _ _ _ Hp) as (_ & -> & _ & _).
  apply loop_counts_ordered; cbn; lia.
Qed.

(** X10. However it ends, [processWords] only takes rows out of the pending
    rows: those left are a sub-list of the former ones, in the same order. *)
Theorem processWords_pending_only_shrinks
        (env : Env) (batchSize : nat) (delayMs : Z) (wd : World) :
  exists keep,
    pending_rows (dictionary (snd (processWords env batchSize delayMs wd)))
    = filter keep (pending_rows (dictionary wd)).
Proof.
  pose proof (processWords_outcome env delayMs batchSize wd) as Ho.
  destruct (pool_fault env (tick wd)).
  - rewrite Ho. exists (fun _ => true). cbn. now rewrite filter_all.
  - cbn zeta in Ho.
    destruct (map word (select_pending batchSize (dictionary wd))) as [| w rest];
      rewrite Ho; cbn [snd].
    + exists (fun _ => true). cbn. now rewrite filter_all.
    + apply (loop_pending_shrinks env delayMs (List.length (w :: rest)) (w :: rest)
                                  (mkCounts 0 0 0) (advance wd)).
Qed.

(* ===================================================================== *)
(** ** A pool that accepts every statement *)
(* ===================================================================== *)

Lemma mem_snoc x done w : mem x (done ++ [w]) = mem x done || (x =? w).
Proof. unfold mem. rewrite existsb_app. cbn. now rewrite orb_false_r. Qed.

Lemma filter_length_perm {A} (f : A -> bool) (l l' : list A) :
  Permutation l l' -> List.length (filter f l) = List.length (filter f l').
Proof.
  induction 1 as [| x l l' _ IH | x y l | l l' l'' _ IH1 _ IH2]; cbn.
  - reflexivity.
  - destruct (f x); cbn; now rewrite IH.
  - destruct (f x), (f y); reflexivity.
  - now rewrite IH1.
Qed.

Lemma NoDup_map_filter {A B} (g : A -> B) (f : A -> bool) (l : list A) :
  NoDup (map g l) -> NoDup (map g (filter f l)).
Proof.
  induction l as [| x l IH]; cbn; intros Hnd; [constructor |].
  apply NoDup_cons_iff in Hnd. destruct Hnd as [Hx Hl].
  destruct (f x); cbn; [| now apply IH].
  constructor; [| now apply IH].
  intros Hin. apply Hx. apply in_map_iff in Hin. destruct Hin as (y & Hy & Hin).
  apply filter_In in Hin. apply in_map_iff. exists y. tauto.
Qed.

Lemma filter_keeps_all {A} (f : A -> bool) (l : list A) :
  (forall x, In x l -> f x = true) -> filter f l = l.
Proof.
  induction l as [| x l IH]; cbn; intros H; [reflexivity |].
  rewrite (H x (or_introl eq_refl)). f_equal. apply IH. intros y Hy. apply H. now right.
Qed.

Lemma filter_drops_all {A} (f : A -> bool) (l : list A) :
  (forall x, In x l -> f x = false) -> filter f l = [].
Proof.
  induction l as [| x l IH]; cbn; intros H; [reflexivity |].
  rewrite (H x (or_introl eq_refl)). apply IH. intros y Hy. apply H. now right.
Qed.

Lemma NoDup_app_disjoint {A} (l1 l2 : list A) :
  NoDup (l1 ++ l2) -> forall a, In a l1 -> ~ In a l2.
Proof.
  induction l1 as [| x l1 IH]; cbn; intros Hnd a Ha; [contradiction |].
  apply NoDup_cons_iff in Hnd. destruct Hnd as [Hx Hnd].
  destruct Ha as [<- | Ha].
  - intros H2. apply Hx, in_or_app. now right.
  - now apply IH.
Qed.

Lemma mem_In x ws : mem x ws = true <-> In x ws.
Proof.
  unfold mem. rewrite existsb_exists. split.
  - intros (y & Hy & He). apply String.eqb_eq in He. now subst.
  - intros H. exists x. split; [assumption | apply String.eqb_refl].
Qed.

(** How many pending rows a batch that updates every selected word leaves:
    at most the others, and exactly the others when no two pending rows
    share a word. *)
Lemma pending_after_selected limit table :
  let selected := map word (select_pending limit table) in
  let left := filter (fun d => negb (mem (word d) selected)) (pending_rows table) in
  List.length left + List.length selected <= List.length (pending_rows table) /\
  (NoDup (map word (pending_rows table)) ->
   List.length left + List.length selected = List.length (pending_rows table)).
Proof.
  cbn zeta. unfold select_pending. fold (pending_rows table).
  set (E := pending_rows table). set (sorted := order_by_created_at E).
  assert (Hperm : Permutation sorted E) by apply order_by_created_at_perm.
  set (q := fun d => mem (word d) (map word (firstn limit sorted))).
  pose proof (filter_length q E) as Hsplit.
  rewrite (filter_length_perm q E sorted (Permutation_sym Hperm)) in Hsplit.
  rewrite <- (firstn_skipn limit sorted) in Hsplit at 1.
  rewrite filter_app, length_app in Hsplit.
  assert (Hsel : filter q (firstn limit sorted) = firstn limit sorted).
  { apply filter_keeps_all. intros d Hd. unfold q. apply mem_In. now apply in_map. }
  rewrite Hsel in Hsplit. rewrite length_map.
  change (fun d => negb (mem (word d) (map word (firstn limit sorted))))
    with (fun d => negb (q d)).
  split; [lia |].
  intros Hnd.
  assert (Hrest : filter q (skipn limit sorted) = []).
  { apply filter_drops_all. intros d Hd. unfold q.
    destruct (mem (word d) (map word (firstn limit sorted))) eqn:Hm; [| reflexivity].
    exfalso. apply mem_In in Hm.
    assert (Hnd' : NoDup (map word sorted))
      by (apply (Permutation_NoDup (Permutation_map word (Permutation_sym Hperm))), Hnd).
    rewrite <- (firstn_skipn limit sorted), map_app in Hnd'.
    apply (NoDup_app_disjoint _ _ Hnd' (word d) Hm). now apply in_map. }
  rewrite Hrest in Hsplit. cbn [List.length] in Hsplit. lia.
Qed.

Lemma while_true_S {S} fuel (body : Eff S LoopControl) s :
  while_true (Datatypes.S fuel) body s =
  match body s with
  | (Normal Break, s') => Some (Normal tt, s')
  | (Normal Continue, s') => while_true fuel body s'
  | (Throw e, s') => Some (Throw e, s')
  end.
Proof. reflexivity. Qed.

Section ReliablePool.

Variable env : Env.
Hypothesis Hpool : reliable_pool env.
Variables (batchSize : nat) (delayMs batchDelayMs : Z).

(** With a reliable pool every word of the loop that has a row is a
    success, and the rows of all its words leave the pending rows. *)
Lemma loop_reliable n words wd :
  (forall w, In w words -> 0 < rowCount w (dictionary wd)) ->
  fst (snd (for_of words (process_word env n delayMs) (mkCounts 0 0 0, wd)))
  = mkCounts (List.length words) (List.length words) 0 /\
  pending_rows (dictionary (snd (snd (for_of words (process_word env n delayMs)
                                             (mkCounts 0 0 0, wd)))))
  = filter (fun d => negb (mem (word d) words)) (pending_rows (dictionary wd)).
Proof.
  intros Hrows.
  set (P := fun (rem : list string) (s : Counts * World) =>
              exists done,
                words = (done ++ rem)%list /\
                fst s = mkCounts (List.length done) (List.length done) 0 /\
                pending_rows (dictionary (snd s))
                = filter (fun d => negb (mem (word d) done)) (pending_rows (dictionary wd)) /\
                (forall w, In w rem -> 0 < rowCount w (dictionary (snd s)))).
  assert (Hend : P [] (snd (for_of words (process_word env n delayMs)
                                   (mkCounts 0 0 0, wd)))).
  { apply for_of_process_word_inv.
    - intros w rest [c1 wd1] (done & Hw & Hc & Hp & Hr). unfold P. cbn [fst snd] in *.
      destruct (process_word_step env n delayMs w c1 wd1) as (r & _ & ->). cbn [snd].
      rewrite (Hpool (S (tick wd1))). cbn zeta. cbn [fst snd dictionary].
      exists (done ++ [w])%list. split; [| split; [| split]].
      + now rewrite <- app_assoc.
      + pose proof (Hr w (or_introl eq_refl)) as Hrow. apply Nat.ltb_lt in Hrow.
        rewrite Hrow, Hc, length_app. cbn. now rewrite Nat.add_1_r.
      + rewrite pending_rows_set_info, Hp, filter_twice.
        apply filter_ext. intros d. rewrite mem_snoc. now rewrite negb_orb.
      + intros x Hx. rewrite (rowCount_keys x _ _ (set_info_keys r w (dictionary wd1))).
        apply Hr. now right.
    - exists []. cbn [fst snd]. split; [reflexivity |]. split; [reflexivity |].
      split; [| assumption]. cbn. now rewrite filter_all. }
  destruct Hend as (done & Hw & Hc & Hp & _). rewrite app_nil_r in Hw. subst done.
  split; assumption.
Qed.

(** A batch with a reliable pool and at least one pending row. *)
Lemma processWords_reliable wd :
  let pending := pending_rows (dictionary wd) in
  let n := Nat.min batchSize (List.length pending) in
  0 < n ->
  exists wd',
    processWords env batchSize delayMs wd = (Normal (Some (mkCounts n n 0)), wd') /\
    pending_rows (dictionary wd')
    = filter (fun d => negb (mem (word d)
                                 (map word (select_pending batchSize (dictionary wd)))))
             pending /\
    (slept wd' = slept wd + delayMs * Z.of_nat (n - 1))%Z.
Proof.
  cbn zeta. intros Hn.
  pose proof (processWords_outcome env delayMs batchSize wd) as Ho.
  rewrite (Hpool (tick wd)) in Ho. cbn zeta in Ho.
  pose proof (select_pending_length batchSize (dictionary wd)) as Hlen.
  fold (pending_rows (dictionary wd)) in Hlen.
  remember (map word (select_pending batchSize (dictionary wd))) as words eqn:Hw.
  assert (Hwl : List.length words
                = Nat.min batchSize (List.length (pending_rows (dictionary wd))))
    by (subst words; now rewrite length_map).
  destruct words as [| w rest]; [cbn in Hwl; lia |].
  eexists. split; [| split].
  - rewrite Ho. f_equal. f_equal.
    destruct (loop_reliable (List.length (w :: rest)) (w :: rest) (advance wd)) as [-> _].
    + intros x Hx. cbn [dictionary advance]. rewrite Hw in Hx.
      now apply selected_word_has_row in Hx.
    + now rewrite Hwl.
  - cbn [snd].
    destruct (loop_reliable (List.length (w :: rest)) (w :: rest) (advance wd)) as [_ ->].
    + intros x Hx. cbn [dictionary advance]. rewrite Hw in Hx.
      now apply selected_word_has_row in Hx.
    + reflexivity.
  - cbn [snd]. rewrite loop_pauses.
    destruct (loop_reliable (List.length (w :: rest)) (w :: rest) (advance wd)) as [-> _].
    + intros x Hx. cbn [dictionary advance]. rewrite Hw in Hx.
      now apply selected_word_has_row in Hx.
    + cbn [processedCount slept advance]. rewrite <- Hwl.
      replace (Nat.min (List.length (w :: rest)) (List.length (w :: rest) - 1))
        with (List.length (w :: rest) - 1) by lia.
      cbn [Nat.min Z.of_nat]. now rewrite Z.sub_0_r.
Qed.

(** A turn of the runner with a reliable pool, at least one pending row and
    no word pending twice. *)
Lemma batch_turn_reliable t wd :
  let p := List.length (pending_rows (dictionary wd)) in
  let n := Nat.min batchSize p in
  0 < n ->
  NoDup (map word (pending_rows (dictionary wd))) ->
  exists wd',
    batch_turn env batchSize delayMs batchDelayMs (t, wd)
    = (Normal (if (n <? batchSize)%nat then Break else Continue),
       (mkTotals (totalProcessed t + n) (totalSuccess t + n) (totalErrors t)
                 (S (batchNumber t)), wd')) /\
    List.length (pending_rows (dictionary wd')) = p - n /\
    NoDup (map word (pending_rows (dictionary wd'))) /\
    (slept wd' = slept wd + delayMs * Z.of_nat (n - 1)
                 + (if (n <? batchSize)%nat then 0 else batchDelayMs))%Z.
Proof.
  cbn zeta. intros Hn Hnd.
  destruct (processWords_reliable wd Hn) as (wd1 & Hp & Hpend & Hslept).
  destruct (pending_after_selected batchSize (dictionary wd)) as [_ Hcount].
  cbn zeta in Hcount. specialize (Hcount Hnd).
  rewrite <- Hpend, length_map, select_pending_length in Hcount.
  fold (pending_rows (dictionary wd)) in Hcount.
  assert (Hnd1 : NoDup (map word (pending_rows (dictionary wd1))))
    by (rewrite Hpend; now apply NoDup_map_filter).
  unfold batch_turn. unfold_eff. rewrite Hp. cbn [fst snd processedCount].
  destruct (Nat.eqb_spec (Nat.min batchSize (List.length (pending_rows (dictionary wd)))) 0)
    as [H0 | _]; [lia |].
  unfold add_batch, next_batch. cbn [totalProcessed totalSuccess totalErrors batchNumber
                                     processedCount successCount errorCount].
  rewrite Nat.add_0_r.
  destruct (_ <? batchSize)%nat; eexists; (split; [reflexivity |]); cbn [snd dictionary slept];
    (split; [lia |]); (split; [assumption |]); lia.
Qed.

Lemma no_pending_rows wd :
  pending_rows (dictionary wd) = [] ->
  forall d, In d (dictionary wd) -> eligible d = false.
Proof.
  unfold pending_rows. intros H d Hd.
  destruct (eligible d) eqn:He; [| reflexivity].
  assert (Hin : In d (filter eligible (dictionary wd))) by (apply filter_In; auto).
  rewrite H in Hin. contradiction.
Qed.

(** The run from any totals, by the number [k] of full batches and the size
    [r] of the last one. *)
Lemma while_true_reliable k :
  forall r t wd,
    r < batchSize ->
    List.length (pending_rows (dictionary wd)) = k * batchSize + r ->
    NoDup (map word (pending_rows (dictionary wd))) ->
    (0 < r ->
     exists wd',
       while_true (S k) (batch_turn env batchSize delayMs batchDelayMs) (t, wd)
       = Some (Normal tt,
               (mkTotals (totalProcessed t + (k * batchSize + r))
                         (totalSuccess t + (k * batchSize + r))
                         (totalErrors t) (batchNumber t + S k), wd')) /\
       pending_rows (dictionary wd') = [] /\
       (slept wd' = slept wd + delayMs * Z.of_nat (k * batchSize + r - S k)
                    + batchDelayMs * Z.of_nat k)%Z) /\
    (r = 0 ->
     forall fuel,
       while_true fuel (batch_turn env batchSize delayMs batchDelayMs) (t, wd) = None).
Proof.
  induction k as [| k IH]; intros r t wd Hr Hlen Hnd.
  - cbn [Nat.mul Nat.add] in *. split.
    + intros Hpos.
      destruct (batch_turn_reliable t wd) as (wd' & Hturn & Hleft & _ & Hslept);
        [lia | assumption |].
      rewrite Hlen in *. replace (Nat.min batchSize r) with r in * by lia.
      destruct (Nat.ltb_spec r batchSize); [| lia].
      exists wd'. cbn [while_true]. rewrite Hturn.
      split; [same_totals |].
      split; [apply length_zero_iff_nil; lia |].
      rewrite Hslept. change (Z.of_nat 0) with 0%Z. ring.
    + intros -> fuel. apply while_true_without_pending, no_pending_rows.
      now apply length_zero_iff_nil.
  - assert (Hbig : batchSize <= List.length (pending_rows (dictionary wd)))
      by (rewrite Hlen; cbn [Nat.mul]; lia).
    destruct (batch_turn_reliable t wd) as (wd1 & Hturn & Hleft & Hnd1 & Hslept);
      [lia | assumption |].
    replace (Nat.min batchSize (List.length (pending_rows (dictionary wd))))
      with batchSize in * by lia.
    rewrite Nat.ltb_irrefl in *.
    assert (Hlen1 : List.length (pending_rows (dictionary wd1)) = k * batchSize + r)
      by (rewrite Hleft, Hlen; cbn [Nat.mul]; lia).
    destruct (IH r (mkTotals (totalProcessed t + batchSize) (totalSuccess t + batchSize)
                             (totalErrors t) (S (batchNumber t)))
                 wd1 Hr Hlen1 Hnd1) as [IHpos IHzero].
    split.
    + intros Hpos. destruct (IHpos Hpos) as (wd' & Hrun & Hnone & Hs).
      exists wd'. rewrite while_true_S, Hturn, Hrun.
      cbn [totalProcessed totalSuccess totalErrors batchNumber Nat.mul].
      split; [same_totals |].
      split; [assumption |].
      rewrite Hs, Hslept.
      assert (Hk : k <= k * batchSize) by nia.
      replace (Z.of_nat (batchSize + k * batchSize + r - S (S k)))
        with (Z.of_nat (batchSize - 1) + Z.of_nat (k * batchSize + r - S k))%Z by lia.
      rewrite Nat2Z.inj_succ. ring.
    + intros Hz [| fuel]; [reflexivity |]. rewrite while_true_S, Hturn.
      now apply IHzero.
Qed.

End ReliablePool.

(* ===================================================================== *)
(** ** More on the runner *)
(* ===================================================================== *)

Lemma while_true_spins {S} (body : Eff S LoopControl) :
  (forall s, exists s', body s = (Normal Continue, s')) ->
  forall fuel s, while_true fuel body s = None.
Proof.
  intros Hbody. induction fuel as [| fuel IH]; intros s; [reflexivity |].
  rewrite while_true_S. destruct (Hbody s) as (s' & ->). apply IH.
Qed.

Lemma while_true_invariant {S} (body : Eff S LoopControl) (I : S -> Prop) :
  (forall s, I s -> I (snd (body s))) ->
  forall fuel s r s', I s -> while_true fuel body s = Some (r, s') -> I s'.
Proof.
  intros Hbody. induction fuel as [| fuel IH]; intros s r s' Hs Hrun; [discriminate |].
  rewrite while_true_S in Hrun. specialize (Hbody s Hs).
  destruct (body s) as [[[|] | e] s1]; cbn [snd] in Hbody.
  - now apply (IH s1 r s').
  - now injection Hrun as _ <-.
  - now injection Hrun as _ <-.
Qed.

Section RunnerTurns.

Variable env : Env.
Variables (batchSize : nat) (delayMs batchDelayMs : Z).

(** A turn of the runner, by the outcome of [processWords]. *)
Lemma batch_turn_outcome t wd :
  batch_turn env batchSize delayMs batchDelayMs (t, wd) =
  match processWords env batchSize delayMs wd with
  | (Normal (Some r), wd1) =>
      if (processedCount r =? 0)%nat then (Normal Break, (t, wd1))
      else if (processedCount r <? batchSize)%nat
           then (Normal Break, (next_batch (add_batch r t), wd1))
           else (Normal Continue,
                 (next_batch (add_batch r t),
                  mkWorld (dictionary wd1) (tick wd1) (slept wd1 + batchDelayMs)%Z))
  | (_, wd1) =>
      (Normal Continue,
       (incr_totalErrors t,
        mkWorld (dictionary wd1) (tick wd1) (slept wd1 + batchDelayMs)%Z))
  end.
Proof.
  unfold batch_turn. unfold_eff.
  destruct (processWords env batchSize delayMs wd) as [[[r |] | e] wd1]; cbn [fst snd];
    try reflexivity.
  destruct (processedCount r =? 0)%nat; [reflexivity |].
  destruct (processedCount r <? batchSize)%nat; reflexivity.
Qed.

Lemma batch_turn_normal s :
  exists ctl s', batch_turn env batchSize delayMs batchDelayMs s = (Normal ctl, s').
Proof.
  destruct s as [t wd]. rewrite batch_turn_outcome.
  destruct (processWords env batchSize delayMs wd) as [[[r |] | e] wd1]; eauto.
  destruct (processedCount r =? 0)%nat; eauto.
  destruct (processedCount r <? batchSize)%nat; eauto.
Qed.

Lemma while_true_batch_turn_normal fuel :
  forall s,
    while_true fuel (batch_turn env batchSize delayMs batchDelayMs) s = None \/
    exists s', while_true fuel (batch_turn env batchSize delayMs batchDelayMs) s
               = Some (Normal tt, s').
Proof.
  induction fuel as [| fuel IH]; intros s; [now left |].
  rewrite while_true_S. destruct (batch_turn_normal s) as ([|] & s' & ->); eauto.
Qed.

(** The counts a batch returns: success, then processed, then success plus
    error. *)
Lemma processWords_counts_between wd r wd' :
  processWords env batchSize delayMs wd = (Normal (Some r), wd') ->
  successCount r <= processedCount r /\
  processedCount r <= successCount r + errorCount r.
Proof.
  intros Hp. destruct (processWords_counts_inv _ _ _ _ _ _ Hp) as (_ & -> & _ & _).
  apply loop_counts_ordered; cbn; lia.
Qed.

Lemma batch_turn_keeps_order t wd :
  totalSuccess t <= totalProcessed t /\
  totalProcessed t <= totalSuccess t + totalErrors t ->
  totalSuccess (fst (snd (batch_turn env batchSize delayMs batchDelayMs (t, wd))))
  <= totalProcessed (fst (snd (batch_turn env batchSize delayMs batchDelayMs (t, wd)))) /\
  totalProcessed (fst (snd (batch_turn env batchSize delayMs batchDelayMs (t, wd))))
  <= totalSuccess (fst (snd (batch_turn env batchSize delayMs batchDelayMs (t, wd))))
     + totalErrors (fst (snd (batch_turn env batchSize delayMs batchDelayMs (t, wd)))).
Proof.
  intros [Hlo Hhi]. rewrite batch_turn_outcome.
  destruct (processWords env batchSize delayMs wd) as [[[r |] | e] wd1] eqn:Hp;
    cbn [fst snd]; try (cbn; lia).
  apply processWords_counts_between in Hp. destruct Hp as [Hr1 Hr2].
  destruct (processedCount r =? 0)%nat; [cbn; lia |].
  destruct (processedCount r <? batchSize)%nat; cbn; lia.
Qed.

End RunnerTurns.

(** The loop when the pool rejects every UPDATE: nothing is processed and
    the table stays as it is. *)
Lemma loop_all_updates_rejected env n delayMs words c wd :
  (forall t, tick wd <= t -> pool_fault env t <> None) ->
  processedCount (fst (snd (for_of words (process_word env n delayMs) (c, wd))))
  = processedCount c /\
  dictionary (snd (snd (for_of words (process_word env n delayMs) (c, wd))))
  = dictionary wd.
Proof.
  intros Hdown.
  set (P := fun (rem : list string) (s : Counts * World) =>
              processedCount (fst s) = processedCount c /\
              dictionary (snd s) = dictionary wd /\
              tick wd <= tick (snd s)).
  assert (Hend : P [] (snd (for_of words (process_word env n delayMs) (c, wd)))).
  { apply for_of_process_word_inv; [| repeat split; cbn; lia].
    intros w rest [c1 wd1] (Hp & Hd & Ht). unfold P. cbn [fst snd] in *.
    destruct (process_word_step env n delayMs w c1 wd1) as (r & _ & ->). cbn [snd].
    destruct (pool_fault env (S (tick wd1))) eqn:Hf.
    - cbn [fst snd processedCount incr_error dictionary tick]. repeat split; (assumption || lia).
    - exfalso. apply (Hdown (S (tick wd1))); [lia | assumption]. }
  destruct Hend as (Hp & Hd & _). split; assumption.
Qed.

(** X11. With a pool that accepts every statement, a positive batch size and
    no word pending twice, [processAllWords] returns when the batch size does
    not divide the number p of pending rows: after p / batchSize + 1 turns,
    with totals p processed, p successes, no error, batch number
    p / batchSize + 2, no row left pending, and having paused [delayMs]
    p - (p / batchSize + 1) times and [batchDelayMs] p / batchSize times. *)
Theorem processAllWords_returns_unless_batchSize_divides
        (env : Env) (batchSize : nat) (delayMs batchDelayMs : Z) (wd : World) :
  reliable_pool env ->
  0 < batchSize ->
  NoDup (map word (pending_rows (dictionary wd))) ->
  List.length (pending_rows (dictionary wd)) mod batchSize <> 0 ->
  let p := List.length (pending_rows (dictionary wd)) in
  exists wd',
    processAllWords env (p / batchSize + 1) batchSize delayMs batchDelayMs wd
    = Some (Normal (mkTotals p p 0 (p / batchSize + 2)), wd') /\
    pending_rows (dictionary wd') = [] /\
    (slept wd' = slept wd + delayMs * Z.of_nat (p - (p / batchSize + 1))
                 + batchDelayMs * Z.of_nat (p / batchSize))%Z.
Proof.
  intros Hpool Hb Hnd Hmod p.
  pose proof (Nat.div_mod_eq p batchSize) as Hdiv.
  pose proof (Nat.mod_upper_bound p batchSize ltac:(lia)) as Hr.
  destruct (while_true_reliable env Hpool batchSize delayMs batchDelayMs
                                (p / batchSize) (p mod batchSize) (mkTotals 0 0 0 1) wd Hr)
    as [Hpos _]; [fold p; lia | assumption |].
  destruct Hpos as (wd' & Hrun & Hnone & Hs); [fold p in Hmod; lia |].
  exists wd'. unfold processAllWords. rewrite Nat.add_1_r, Hrun. cbn [fst snd].
  cbn [totalProcessed totalSuccess totalErrors batchNumber].
  replace (p / batchSize * batchSize + p mod batchSize) with p in * by lia.
  split.
  { match goal with
    | |- Some (Normal ?a, _) = Some (Normal ?b, _) =>
        replace a with b by (f_equal; lia); reflexivity
    end. }
  split; [assumption |].
  rewrite Hs. replace (p - S (p / batchSize)) with (p - (p / batchSize + 1)) by lia.
  reflexivity.
Qed.

(** X12. Under the same conditions, when the batch size divides the number
    of pending rows (zero included), [processAllWords] never returns: the
    last batch is full, the next selection is empty, and the loop retries
    for ever. *)
Theorem processAllWords_spins_when_batchSize_divides
        (env : Env) (batchSize : nat) (delayMs batchDelayMs : Z) (wd : World)
        (fuel : nat) :
  reliable_pool env ->
  0 < batchSize ->
  NoDup (map word (pending_rows (dictionary wd))) ->
  List.length (pending_rows (dictionary wd)) mod batchSize = 0 ->
  processAllWords env fuel batchSize delayMs batchDelayMs wd = None.
Proof.
  intros Hpool Hb Hnd Hmod.
  set (p := List.length (pending_rows (dictionary wd))) in *.
  pose proof (Nat.div_mod_eq p batchSize) as Hdiv.
  destruct (while_true_reliable env Hpool batchSize delayMs batchDelayMs
                                (p / batchSize) 0 (mkTotals 0 0 0 1) wd Hb)
    as [_ Hzero]; [fold p; lia | assumption |].
  unfold processAllWords. now rewrite Hzero.
Qed.

(** X13. With batch size 0 [processAllWords] never returns, whatever the
    store, the service and the pool. *)
Theorem processAllWords_spins_with_batchSize_zero
        (env : Env) (delayMs batchDelayMs : Z) (wd : World) (fuel : nat) :
  processAllWords env fuel 0 delayMs batchDelayMs wd = None.
Proof.
  unfold processAllWords. rewrite while_true_spins; [reflexivity |].
  intros [t w]. rewrite batch_turn_outcome.
  pose proof (processWords_outcome env delayMs 0 w) as Ho.
  destruct (pool_fault env (tick w)); [rewrite Ho; eauto |].
  cbn zeta in Ho. unfold select_pending in Ho. rewrite firstn_0 in Ho. cbn [map] in Ho.
  rewrite Ho. eauto.
Qed.

(** X14. While the pool rejects every statement [processAllWords] never
    returns: there is no bound on its retries. *)
Theorem processAllWords_retries_forever_when_pool_is_down
        (env : Env) (batchSize : nat) (delayMs batchDelayMs : Z) (wd : World)
        (fuel : nat) :
  (forall t, pool_fault env t <> None) ->
  processAllWords env fuel batchSize delayMs batchDelayMs wd = None.
Proof.
  intros Hdown. unfold processAllWords. rewrite while_true_spins; [reflexivity |].
  intros [t w]. rewrite batch_turn_outcome.
  pose proof (processWords_outcome env delayMs batchSize w) as Ho.
  destruct (pool_fault env (tick w)) eqn:Hf; [rewrite Ho; eauto |].
  now destruct (Hdown (tick w)).
Qed.

(** X15. When the pool accepts the SELECT and rejects every later statement,
    and some row is pending, [processAllWords] stops at its first turn: the
    batch has processed nothing, which the runner reads as the end of the
    work. It reports zero processed, zero successes and zero errors, and the
    table is as it was. *)
Theorem processAllWords_stops_when_every_update_is_rejected
        (env : Env) (batchSize : nat) (delayMs batchDelayMs : Z) (wd : World)
        (fuel : nat) :
  pool_fault env (tick wd) = None ->
  (forall t, tick wd < t -> pool_fault env t <> None) ->
  pending_rows (dictionary wd) <> [] ->
  0 < batchSize ->
  exists wd',
    processAllWords env (S fuel) batchSize delayMs batchDelayMs wd
    = Some (Normal (mkTotals 0 0 0 1), wd') /\
    dictionary wd' = dictionary wd.
Proof.
  intros Hsel Hdown Hpending Hb.
  pose proof (processWords_outcome env delayMs batchSize wd) as Ho.
  rewrite Hsel in Ho. cbn zeta in Ho.
  pose proof (select_pending_length batchSize (dictionary wd)) as Hlen.
  fold (pending_rows (dictionary wd)) in Hlen.
  assert (Hp : 0 < List.length (pending_rows (dictionary wd)))
    by (destruct (pending_rows (dictionary wd)); [congruence | cbn; lia]).
  remember (map word (select_pending batchSize (dictionary wd))) as words eqn:Hw.
  assert (Hwl : 0 < List.length words) by (subst words; rewrite length_map; lia).
  destruct words as [| w rest]; [cbn in Hwl; lia |].
  destruct (loop_all_updates_rejected env (List.length (w :: rest)) delayMs (w :: rest)
                                      (mkCounts 0 0 0) (advance wd)) as [Hproc Hdict].
  { intros t Ht. apply Hdown. cbn [tick advance] in Ht. lia. }
  eexists. unfold processAllWords. rewrite while_true_S, batch_turn_outcome, Ho.
  cbn [processedCount] in Hproc. rewrite Hproc. cbn [Nat.eqb fst snd].
  split; [reflexivity | exact Hdict].
Qed.

(** X16. [processAllWords] never raises: within any number of turns it is
    either still running or has returned its totals. *)
Theorem processAllWords_never_raises
        (env : Env) (batchSize : nat) (delayMs batchDelayMs : Z) (wd : World)
        (fuel : nat) :
  processAllWords env fuel batchSize delayMs batchDelayMs wd = None \/
  exists t wd',
    processAllWords env fuel batchSize delayMs batchDelayMs wd = Some (Normal t, wd').
Proof.
  unfold processAllWords.
  destruct (while_true_batch_turn_normal env batchSize delayMs batchDelayMs fuel
                                         (mkTotals 0 0 0 1, wd)) as [-> | (s' & ->)];
    eauto.
Qed.

(** X17. In the totals [processAllWords] reports, the successful updates are
    at most the words processed, and the words processed at most the
    successful updates plus the errors. *)
Theorem processAllWords_totals_ordered
        (env : Env) (batchSize : nat) (delayMs batchDelayMs : Z) (wd wd' : World)
        (fuel : nat) (t : Totals) :
  processAllWords env fuel batchSize delayMs batchDelayMs wd = Some (Normal t, wd') ->
  totalSuccess t <= totalProcessed t /\
  totalProcessed t <= totalSuccess t + totalErrors t.
Proof.
  unfold processAllWords.
  destruct (while_true fuel (batch_turn env batchSize delayMs batchDelayMs)
                       (mkTotals 0 0 0 1, wd)) as [[r s] |] eqn:Hrun; [| discriminate].
  intros H.
  apply (while_true_invariant
           _ (fun s => totalSuccess (fst s) <= totalProcessed (fst s) /\
                       totalProcessed (fst s) <= totalSuccess (fst s) + totalErrors (fst s)))
    in Hrun.
  - destruct r; [| discriminate]. injection H as <- _. assumption.
  - intros [t0 w0]. apply batch_turn_keeps_order.
  - cbn. lia.
Qed.

(** X18. With a pool that accepts every statement, when the SELECT of
    [processWords] returns a non-empty list of words, [processWords] returns
    n processed, n successes and no error, n being the number of words
    returned, which is the smaller of the batch size and the number of
    pending rows; no row left pending has one of the returned words; the
    pending rows are fewer by at least n; and it has paused n - 1 times. *)
Theorem processWords_with_reliable_pool
        (env : Env) (batchSize : nat) (delayMs : Z) (wd wd1 : World)
        (words : list string) :
  reliable_pool env ->
  queryWordsNeedingInfo env batchSize wd = (Normal words, wd1) ->
  words <> [] ->
  exists wd',
    processWords env batchSize delayMs wd
    = (Normal (Some (mkCounts (List.length words) (List.length words) 0)), wd') /\
    List.length words
    = Nat.min batchSize (List.length (pending_rows (dictionary wd))) /\
    (forall d, In d (pending_rows (dictionary wd')) ->
               In d (pending_rows (dictionary wd)) /\ ~ In (word d) words) /\
    List.length (pending_rows (dictionary wd')) + List.length words
    <= List.length (pending_rows (dictionary wd)) /\
    (slept wd' = slept wd + delayMs * Z.of_nat (List.length words - 1))%Z.
Proof.
  intros Hpool Hq Hne.
  rewrite queryWordsNeedingInfo_unfold, (Hpool (tick wd)) in Hq.
  injection Hq as <- _.
  assert (Hlen : List.length (map word (select_pending batchSize (dictionary wd)))
                 = Nat.min batchSize (List.length (pending_rows (dictionary wd))))
    by (rewrite length_map; apply select_pending_length).
  assert (Hn : 0 < Nat.min batchSize (List.length (pending_rows (dictionary wd)))).
  { rewrite <- Hlen.
    destruct (map word (select_pending batchSize (dictionary wd)));
      [congruence | cbn; lia]. }
  destruct (processWords_reliable env Hpool batchSize delayMs wd Hn)
    as (wd' & Hp & Hpend & Hs).
  exists wd'. rewrite Hlen. split; [exact Hp |]. split; [reflexivity |].
  split; [| split; [| exact Hs]].
  - intros d Hd. rewrite Hpend in Hd. apply filter_In in Hd. destruct Hd as [Hd Hm].
    split; [assumption |]. intros Hin. apply mem_In in Hin. rewrite Hin in Hm. discriminate.
  - destruct (pending_after_selected batchSize (dictionary wd)) as [Hle _].
    cbn zeta in Hle. rewrite <- Hpend, length_map, select_pending_length in Hle.
    exact Hle.
Qed.

(* ===================================================================== *)
(** ** Several lookups: [fetchMultipleWordFrequencies] *)
(* ===================================================================== *)

Section MultipleLookups.

Variable env : Env.
Variables (total : nat) (delayMs : Z).

(** The loop from index [i] on, with the results gathered so far. *)
Lemma fetchMultiple_loop :
  forall ws i acc wd,
    i + List.length ws = total ->
    exists rs,
      for_of (combine (seq i (List.length ws)) ws)
             (fun iw =>
                frequencyInfo <- in_world (fetchWordFrequency env (snd iw)) ;;
                on_locals (fun results => (results ++ [frequencyInfo])%list) ;;;
                if (Z.of_nat (fst iw) <? Z.of_nat total - 1)%Z
                then in_world (sleep delayMs)
                else ret tt)
             (acc, wd)
      = (Normal tt,
         ((acc ++ rs)%list,
          mkWorld (dictionary wd) (tick wd + List.length ws)
                  (slept wd + delayMs * Z.of_nat (List.length ws - 1))%Z)) /\
      map Normal rs
      = map (fun iw => lookup_at env (tick wd + (fst iw - i)) (snd iw))
            (combine (seq i (List.length ws)) ws).
Proof.
  induction ws as [| w ws IH]; intros i acc wd Hi.
  - exists []. cbn. unfold ret. rewrite app_nil_r, Nat.add_0_r, Z.mul_0_r, Z.add_0_r.
    destruct wd; split; reflexivity.
  - cbn [List.length seq combine for_of]. unfold bind at 1.
    destruct (fetchWordFrequency_returns env w wd) as (r & Hr & _).
    pose proof (lookup_at_spec env w wd) as Hat. rewrite Hr in Hat. cbn [fst] in Hat.
    set (wd1 := if (Z.of_nat i <? Z.of_nat total - 1)%Z
                then mkWorld (dictionary wd) (S (tick wd)) (slept wd + delayMs)%Z
                else advance wd).
    assert (Hstep :
              (frequencyInfo <- in_world (fetchWordFrequency env w) ;;
               on_locals (fun results => (results ++ [frequencyInfo])%list) ;;;
               (if (Z.of_nat i <? Z.of_nat total - 1)%Z
                then in_world (sleep delayMs) else ret tt)) (acc, wd)
              = (Normal tt, ((acc ++ [r])%list, wd1))).
    { unfold_eff. rewrite Hr. cbn [fst snd]. subst wd1.
      destruct (Z.of_nat i <? Z.of_nat total - 1)%Z; reflexivity. }
    cbn [fst snd]. rewrite Hstep.
    destruct (IH (S i) (acc ++ [r])%list wd1) as (rs & Hrun & Hmap);
      [cbn [List.length] in Hi; lia |].
    exists (r :: rs). rewrite Hrun. split.
    + rewrite <- app_assoc. cbn [app]. f_equal. f_equal.
      cbn [List.length] in Hi. subst wd1.
      destruct (Z.ltb_spec (Z.of_nat i) (Z.of_nat total - 1)) as [Hlt | Hge];
        cbn [dictionary tick slept advance]; f_equal; try lia.
      replace (S (List.length ws) - 1) with (S (List.length ws - 1)) by lia.
      rewrite Nat2Z.inj_succ. ring.
    + cbn [map fst snd]. rewrite Nat.sub_diag, Nat.add_0_r, Hat. f_equal.
      rewrite Hmap. apply map_ext_in. intros [k x] Hin.
      apply in_combine_l, in_seq in Hin. cbn [fst snd].
      replace (tick wd1) with (S (tick wd))
        by (subst wd1; destruct (Z.of_nat i <? Z.of_nat total - 1)%Z; reflexivity).
      f_equal. lia.
Qed.

End MultipleLookups.

(** X19. [fetchMultipleWordFrequencies] never raises and returns one record
    per word, in the order of the words: the record of the lookup issued at
    the tick of its index. It makes one request per word and pauses
    [delayMs] between two requests, not after the last. *)
Theorem fetchMultipleWordFrequencies_returns
        (env : Env) (words : list string) (delayMs : Z) (wd : World) :
  exists results,
    fetchMultipleWordFrequencies env words delayMs wd
    = (Normal results,
       mkWorld (dictionary wd) (tick wd + List.length words)
               (slept wd + delayMs * Z.of_nat (List.length words - 1))%Z) /\
    List.length results = List.length words /\
    map Normal results
    = map (fun iw => lookup_at env (tick wd + fst iw) (snd iw))
          (combine (seq 0 (List.length words)) words).
Proof.
  destruct (fetchMultiple_loop env (List.length words) delayMs words 0 [] wd eq_refl)
    as (rs & Hrun & Hmap).
  exists rs. unfold fetchMultipleWordFrequencies, run_locals. unfold_eff.
  cbn zeta. rewrite Hrun. cbn [fst snd app].
  split; [reflexivity |]. split.
  - apply (f_equal (@List.length _)) in Hmap.
    rewrite !length_map, length_combine, length_seq in Hmap. lia.
  - rewrite Hmap. apply map_ext. intros [k x]. cbn [fst snd]. now rewrite Nat.sub_0_r.
Qed.

(* ===================================================================== *)
(** ** More on the lookup *)
(* ===================================================================== *)

Lemma substring_all s : String.substring 0 (String.length s) s = s.
Proof. induction s as [| c s IH]; cbn; [reflexivity | now rewrite IH]. Qed.

(** Cutting the first two characters off a tag that starts with [f:] and
    putting [f:] back gives the tag. *)
Lemma strip_f_prefix t :
  String.prefix "f:" t = true ->
  "f:" ++ String.substring 2 (String.length t - 2) t = t /\ t <> "".
Proof.
  destruct t as [| c1 [| c2 t]]; cbn [String.prefix]; try easy.
  - case_scrutinee; easy.
  - case_scrutinee; [subst c1 | easy].
    case_scrutinee; [subst c2 | easy].
    intros _. cbn. rewrite Nat.sub_0_r, substring_all. split; [reflexivity | discriminate].
Qed.

Lemma find_f_strings tags :
  Js.find_f (map JStr tags) = Normal (option_map JStr (find (String.prefix "f:") tags)).
Proof.
  induction tags as [| t tags IH]; cbn; [reflexivity |].
  destruct (String.prefix "f:" t); [reflexivity | exact IH].
Qed.

(** X20. When the first entry of the answer carries tags that are all
    strings, the frequency of the record is what follows [f:] in the first
    tag that starts with [f:] (putting [f:] back gives that tag), and null
    when there is no such tag; the score is that of the entry, or null; the
    record has no error. *)
Theorem lookup_reads_first_frequency_tag
        (env : Env) (w : string) (wd : World)
        (fields : list (string * Json)) (others : list Json) (tags : list string) :
  axios_get env (tick wd) w = Normal (JArr (JObj fields :: others)) ->
  Js.assoc "tags" fields = Some (JArr (map JStr tags)) ->
  match find (String.prefix "f:") tags with
  | Some t =>
      exists frequency,
        "f:" ++ frequency = t /\
        fst (fetchWordFrequency env w wd)
        = Normal (found_info (JStr frequency) (Js.or_null (Js.assoc "score" fields))
                             (clock env (S (tick wd))))
  | None =>
      fst (fetchWordFrequency env w wd)
      = Normal (found_info JNull (Js.or_null (Js.assoc "score" fields))
                           (clock env (S (tick wd))))
  end.
Proof.
  intros Hget Htags.
  rewrite fetchWordFrequency_unfold.
  unfold fetchWordFrequency_try, http_get_words, toISOString_now. unfold_eff.
  rewrite Hget, has_entries_cons. cbn [Js.index0 nth_error Js.field]. rewrite Htags.
  cbn [Js.truthy Js.find_frequency_tag]. rewrite find_f_strings.
  destruct (find (String.prefix "f:") tags) as [t |] eqn:Hfind; cbn [option_map fst snd].
  - apply find_some in Hfind. destruct Hfind as [_ Hpre].
    destruct (strip_f_prefix t Hpre) as [Hcut Hne].
    assert (Htruthy : Js.truthy (JStr t) = true).
    { cbn. destruct (String.eqb_spec t ""); [contradiction | reflexivity]. }
    rewrite Htruthy. cbn [Js.substring2 fst snd Js.field].
    eexists. split; [exact Hcut | reflexivity].
  - reflexivity.
Qed.

(** X21. An answer that is a non-empty text instead of a list is taken as a
    match: the record has frequency null, score null and no error. *)
Theorem lookup_takes_text_body_as_entry
        (env : Env) (w : string) (wd : World) (body : string) :
  axios_get env (tick wd) w = Normal (JStr body) ->
  body <> "" ->
  fst (fetchWordFrequency env w wd)
  = Normal (found_info JNull JNull (clock env (S (tick wd)))).
Proof.
  intros Hget Hne.
  rewrite fetchWordFrequency_unfold.
  unfold fetchWordFrequency_try, http_get_words, toISOString_now. unfold_eff.
  rewrite Hget. destruct body as [| c body]; [contradiction |]. reflexivity.
Qed.

(** X22. An answer that is null, a boolean, a number, the empty text or the
    empty list gives the not-found record. *)
Theorem lookup_not_found_without_entries
        (env : Env) (w : string) (wd : World) (data : Json) :
  axios_get env (tick wd) w = Normal data ->
  data = JNull \/ (exists b, data = JBool b) \/ (exists n, data = JNum n) \/
  data = JStr "" \/ data = JArr [] ->
  fst (fetchWordFrequency env w wd)
  = Normal (failure_info not_found_message (clock env (S (tick wd)))).
Proof.
  intros Hget Hdata.
  rewrite fetchWordFrequency_unfold.
  unfold fetchWordFrequency_try, http_get_words, toISOString_now. unfold_eff.
  rewrite Hget.
  destruct Hdata as [-> | [[b ->] | [[n ->] | [-> | ->]]]]; try reflexivity.
  - destruct b; reflexivity.
  - unfold has_entries. cbn. destruct (n =? 0)%Z; reflexivity.
Qed.

(* ===================================================================== *)
(** ** Start-up: [testConnection] and [main] *)
(* ===================================================================== *)

(** X23. [main] starts the run only after the connection test: when the
    pool rejects the test query the process exits with status 1 after that
    one call; otherwise [main] is [processAllWords(1000, 200, 5000)] from the
    next tick on, and ends the pool when that returns. *)
Theorem main_runs_only_after_connection_test
        (env : Env) (fuel : nat) (wd : World) :
  match pool_fault env (tick wd) with
  | Some _ => main env fuel wd = Some (Exit 1, advance wd)
  | None =>
      main env fuel wd
      = option_map (fun r => (Returned true, snd r))
                   (processAllWords env fuel 1000 200 5000 (advance wd))
  end.
Proof.
  unfold main, testConnection, testDatamuseAPI, service_testConnection, pool_query.
  unfold_eff.
  destruct (pool_fault env (tick wd)); cbn [fst snd negb orb]; [reflexivity |].
  change (mkWorld (dictionary wd) (S (tick wd)) (slept wd)) with (advance wd).
  unfold processAllWords.
  destruct (while_true_batch_turn_normal env 1000 200%Z 5000%Z fuel
                                         (mkTotals 0 0 0 1, advance wd))
    as [-> | (s' & ->)]; reflexivity.
Qed.

(* ===================================================================== *)
(** ** A rejected SELECT *)
(* ===================================================================== *)

Section Retry.

Variable env : Env.
Variables (batchSize : nat) (delayMs batchDelayMs : Z).

(** What a turn does to the world and whether the loop goes on do not
    depend on the totals, and one more error in the totals before a turn is
    one more error after it. *)
Lemma batch_turn_one_more_error t wd :
  batch_turn env batchSize delayMs batchDelayMs (incr_totalErrors t, wd)
  = (fst (batch_turn env batchSize delayMs batchDelayMs (t, wd)),
     (incr_totalErrors (fst (snd (batch_turn env batchSize delayMs batchDelayMs (t, wd)))),
      snd (snd (batch_turn env batchSize delayMs batchDelayMs (t, wd))))).
Proof.
  rewrite !batch_turn_outcome.
  destruct (processWords env batchSize delayMs wd) as [[[r |] | e] wd1]; try reflexivity.
  destruct (processedCount r =? 0)%nat; [reflexivity |].
  destruct (processedCount r <? batchSize)%nat; reflexivity.
Qed.

Lemma while_true_one_more_error fuel :
  forall t wd,
    while_true fuel (batch_turn env batchSize delayMs batchDelayMs) (incr_totalErrors t, wd)
    = option_map (fun r => (fst r, (incr_totalErrors (fst (snd r)), snd (snd r))))
                 (while_true fuel (batch_turn env batchSize delayMs batchDelayMs) (t, wd)).
Proof.
  induction fuel as [| fuel IH]; intros t wd; [reflexivity |].
  rewrite !while_true_S, batch_turn_one_more_error.
  destruct (batch_turn env batchSize delayMs batchDelayMs (t, wd)) as [[[|] | e] [t1 wd1]];
    cbn [fst snd option_map]; [apply IH | reflexivity | reflexivity].
Qed.

End Retry.

(** X24. When the pool rejects the SELECT of a turn, [processAllWords] counts
    one error, waits [batchDelayMs] and goes on: with one more turn it ends
    as the run started at the next tick on the same table ends, with one
    more error in the totals. *)
Theorem processAllWords_retries_after_rejected_select
        (env : Env) (batchSize : nat) (delayMs batchDelayMs : Z) (wd : World)
        (fuel : nat) (e : JsError) :
  pool_fault env (tick wd) = Some e ->
  processAllWords env (S fuel) batchSize delayMs batchDelayMs wd
  = option_map
      (fun r => (match fst r with
                 | Normal t => Normal (incr_totalErrors t)
                 | Throw x => Throw x
                 end, snd r))
      (processAllWords env fuel batchSize delayMs batchDelayMs
                       (mkWorld (dictionary wd) (S (tick wd)) (slept wd + batchDelayMs)%Z)).
Proof.
  intros Hf. unfold processAllWords.
  rewrite while_true_S, batch_turn_outcome.
  pose proof (processWords_outcome env delayMs batchSize wd) as Ho.
  rewrite Hf in Ho. rewrite Ho. cbn [advance dictionary tick slept].
  rewrite while_true_one_more_error.
  destruct (while_true fuel (batch_turn env batchSize delayMs batchDelayMs) _)
    as [[[u | x] [t1 wd1]] |]; reflexivity.
Qed.

Lemma processAllWords_retries_after_rejected_select_witness :
  processAllWords first_select_fails 2 10 200 5000 five_pending
  = option_map
      (fun r => (match fst r with
                 | Normal t => Normal (incr_totalErrors t)
                 | Throw x => Throw x
                 end, snd r))
      (processAllWords first_select_fails 1 10 200 5000
                       (mkWorld (dictionary five_pending) 1 (0 + 5000)%Z)).
Proof.
  apply (processAllWords_retries_after_rejected_select
           first_select_fails 10 200 5000 five_pending 1
           (mkError "Connection terminated unexpectedly")).
  reflexivity.
Defined.

(** The pool rejects the first SELECT only: the runner retries and ends
    with the five words processed and one error counted. *)
Example runner_retries_once :
  option_map fst (processAllWords first_select_fails 2 10 200 5000 five_pending)
  = Some (Normal (mkTotals 5 5 1 2)).
Proof. vm_compute. reflexivity. Qed.

(* ===================================================================== *)
(** ** The theorems above on sample worlds *)
(* ===================================================================== *)

Lemma updateWordInfo_idempotent_witness :
  dictionary (snd (updateWordInfo calm_env "a" sample_info
                                  (snd (updateWordInfo calm_env "a" sample_info five_pending))))
  = dictionary (snd (updateWordInfo calm_env "a" sample_info five_pending)) /\
  true = true.
Proof.
  apply (updateWordInfo_idempotent
           calm_env "a" sample_info five_pending
           (snd (updateWordInfo calm_env "a" sample_info five_pending))
           (snd (updateWordInfo calm_env "a" sample_info
                                (snd (updateWordInfo calm_env "a" sample_info five_pending))))
           true true); reflexivity.
Defined.

Lemma updateWordInfo_never_reselected_witness :
  ~ In "a" ["e"; "d"; "c"; "b"].
Proof.
  apply (updateWordInfo_never_reselected
           calm_env "a" sample_info five_pending
           (snd (updateWordInfo calm_env "a" sample_info five_pending))
           (snd (updateWordInfo calm_env "a" sample_info five_pending))
           (advance (snd (updateWordInfo calm_env "a" sample_info five_pending)))
           true 10 ["e"; "d"; "c"; "b"]); reflexivity.
Defined.

Lemma updateWordInfo_false_iff_no_row_witness :
  (false = false <->
   forall d, In d (dictionary five_pending) -> update_target "zyzzyva" d = false) /\
  (false = false ->
   dictionary (snd (updateWordInfo calm_env "zyzzyva" sample_info five_pending))
   = dictionary five_pending).
Proof.
  apply (updateWordInfo_false_iff_no_row
           calm_env "zyzzyva" sample_info five_pending
           (snd (updateWordInfo calm_env "zyzzyva" sample_info five_pending)) false).
  reflexivity.
Defined.

Lemma updateWordInfo_changes_only_info_witness :
  map row_key (dictionary (snd (updateWordInfo calm_env "c" sample_info five_pending)))
  = map row_key (dictionary five_pending) /\
  (forall d, In d (dictionary five_pending) -> update_target "c" d = false ->
             In d (dictionary (snd (updateWordInfo calm_env "c" sample_info five_pending)))) /\
  (forall d, In d (dictionary (snd (updateWordInfo calm_env "c" sample_info five_pending))) ->
             update_target "c" d = true -> info d = Some sample_info) /\
  pending_rows (dictionary (snd (updateWordInfo calm_env "c" sample_info five_pending)))
  = filter (fun d => negb (word d =? "c")) (pending_rows (dictionary five_pending)).
Proof.
  apply (updateWordInfo_changes_only_info
           calm_env "c" sample_info five_pending
           (snd (updateWordInfo calm_env "c" sample_info five_pending)) true).
  reflexivity.
Defined.

Lemma processWords_external_calls_witness :
  tick (snd (processWords third_update_fails 5 200 five_pending))
  = tick five_pending + 1 + 2 * (4 + 1).
Proof.
  apply (processWords_external_calls
           third_update_fails 5 200 five_pending
           (snd (processWords third_update_fails 5 200 five_pending))
           (mkCounts 4 4 1)).
  reflexivity.
Defined.

Lemma processWords_pauses_witness :
  (slept (snd (processWords third_update_fails 5 200 five_pending))
   = slept five_pending + 200 * Z.of_nat (Nat.min 4 (4 + 1 - 1)))%Z /\
  (4 = 4 + 1 ->
   (slept (snd (processWords third_update_fails 5 200 five_pending))
    = slept five_pending + 200 * Z.of_nat (4 - 1))%Z) /\
  (4 < 4 + 1 ->
   (slept (snd (processWords third_update_fails 5 200 five_pending))
    = slept five_pending + 200 * Z.of_nat 4)%Z).
Proof.
  apply (processWords_pauses
           third_update_fails 5 200 five_pending
           (snd (processWords third_update_fails 5 200 five_pending))
           (mkCounts 4 4 1)).
  reflexivity.
Defined.

Lemma processWords_counts_ordered_witness :
  successCount (mkCounts 4 4 1) <= processedCount (mkCounts 4 4 1) /\
  processedCount (mkCounts 4 4 1)
  <= successCount (mkCounts 4 4 1) + errorCount (mkCounts 4 4 1).
Proof.
  apply (processWords_counts_ordered
           third_update_fails 5 200 five_pending
           (snd (processWords third_update_fails 5 200 five_pending))
           (mkCounts 4 4 1)).
  reflexivity.
Defined.

Lemma processAllWords_returns_unless_batchSize_divides_witness :
  exists wd',
    processAllWords calm_env 3 2 200 5000 five_pending
    = Some (Normal (mkTotals 5 5 0 4), wd') /\
    pending_rows (dictionary wd') = [] /\
    (slept wd' = slept five_pending + 200 * Z.of_nat (5 - 3) + 5000 * Z.of_nat 2)%Z.
Proof.
  apply (processAllWords_returns_unless_batchSize_divides
           calm_env 2 200 5000 five_pending).
  - intros t. reflexivity.
  - lia.
  - cbn. nodup_strings.
  - cbn. lia.
Defined.

Lemma processAllWords_spins_when_batchSize_divides_witness :
  processAllWords calm_env 50 5 200 5000 five_pending = None.
Proof.
  apply (processAllWords_spins_when_batchSize_divides
           calm_env 5 200 5000 five_pending 50).
  - intros t. reflexivity.
  - lia.
  - cbn. nodup_strings.
  - reflexivity.
Defined.

Lemma processAllWords_retries_forever_when_pool_is_down_witness :
  processAllWords pool_down_env 50 1000 200 5000 five_pending = None.
Proof.
  apply (processAllWords_retries_forever_when_pool_is_down
           pool_down_env 1000 200 5000 five_pending 50).
  intros t. discriminate.
Defined.

Lemma processAllWords_stops_when_every_update_is_rejected_witness :
  exists wd',
    processAllWords updates_rejected_env 1 5 200 5000 five_pending
    = Some (Normal (mkTotals 0 0 0 1), wd') /\
    dictionary wd' = dictionary five_pending.
Proof.
  apply (processAllWords_stops_when_every_update_is_rejected
           updates_rejected_env 5 200 5000 five_pending 0).
  - reflexivity.
  - intros [| t] Ht; [cbn in Ht; lia | discriminate].
  - discriminate.
  - lia.
Defined.

Lemma processAllWords_totals_ordered_witness :
  totalSuccess (mkTotals 4 4 1 2) <= totalProcessed (mkTotals 4 4 1 2) /\
  totalProcessed (mkTotals 4 4 1 2)
  <= totalSuccess (mkTotals 4 4 1 2) + totalErrors (mkTotals 4 4 1 2).
Proof.
  apply (processAllWords_totals_ordered
           third_update_fails 10 200 5000 five_pending
           (snd (processWords third_update_fails 10 200 five_pending))
           1 (mkTotals 4 4 1 2)).
  reflexivity.
Defined.

Lemma processWords_with_reliable_pool_witness :
  exists wd',
    processWords calm_env 3 200 five_pending
    = (Normal (Some (mkCounts (List.length ["e"; "d"; "c"])
                              (List.length ["e"; "d"; "c"]) 0)), wd') /\
    List.length ["e"; "d"; "c"]
    = Nat.min 3 (List.length (pending_rows (dictionary five_pending))) /\
    (forall d, In d (pending_rows (dictionary wd')) ->
               In d (pending_rows (dictionary five_pending)) /\
               ~ In (word d) ["e"; "d"; "c"]) /\
    List.length (pending_rows (dictionary wd')) + List.length ["e"; "d"; "c"]
    <= List.length (pending_rows (dictionary five_pending)) /\
    (slept wd' = slept five_pending
                 + 200 * Z.of_nat (List.length ["e"; "d"; "c"] - 1))%Z.
Proof.
  apply (processWords_with_reliable_pool
           calm_env 3 200 five_pending (advance five_pending) ["e"; "d"; "c"]).
  - intros t. reflexivity.
  - reflexivity.
  - discriminate.
Defined.

Lemma lookup_reads_first_frequency_tag_witness :
  exists frequency,
    "f:" ++ frequency = "f:0.5" /\
    fst (fetchWordFrequency tagged_env "abacus" (world_of []))
    = Normal (found_info (JStr frequency) (JNum 42) "2024-01-01T00:00:00.000Z").
Proof.
  apply (lookup_reads_first_frequency_tag
           tagged_env "abacus" (world_of [])
           [("word", JStr "abacus"); ("score", JNum 42);
            ("tags", JArr [JStr "n"; JStr "f:0.5"; JStr "f:7"])]
           [] ["n"; "f:0.5"; "f:7"]); reflexivity.
Defined.

Lemma lookup_takes_text_body_as_entry_witness :
  fst (fetchWordFrequency text_env "abacus" (world_of []))
  = Normal (found_info JNull JNull "2024-01-01T00:00:00.000Z").
Proof.
  apply (lookup_takes_text_body_as_entry
           text_env "abacus" (world_of []) "<html>Service Unavailable</html>").
  - reflexivity.
  - discriminate.
Defined.

Lemma lookup_not_found_without_entries_witness :
  fst (fetchWordFrequency empty_env "abacus" (world_of []))
  = Normal (failure_info not_found_message "2024-01-01T00:00:00.000Z").
Proof.
  apply (lookup_not_found_without_entries empty_env "abacus" (world_of []) (JArr [])).
  - reflexivity.
  - do 4 right. reflexivity.
Defined.
